(** * NBA-stats-analysis: the React pages and the collection pipeline

    The development has two halves.

    - [Dashboard] and [DataCollection] embed the two React pages of the
      repository ([src/pages/Dashboard.js], [src/pages/DataCollection.js]):
      component state, the [useQuery] cache, the rendered view and the
      [async] click handler with its [try]/[catch]/[finally].
    - [Pipeline] holds the constants of the scraping specification
      ([RETRY_CONFIG], [VALIDATION_RULES], the three sources) and a model
      of the collection pipeline (backoff, validator, reconciler, run
      coordinator, canonical store).  The pipeline itself is implemented
      by the Python collection modules, not by the React application, so
      its functions are written from the design document.

    Definitions come first, module by module; the theorems follow. *)

From stdpp Require Import gmap strings list fin_maps numbers sorting lexico.
From Stdlib Require Import QArith Qcanon Qcabs.

Close Scope Qc_scope.
Close Scope Q_scope.

(* ===================================================================== *)
(** * Dashboard page ([src/pages/Dashboard.js])                           *)
(* ===================================================================== *)

Module Dashboard.

(** JavaScript numbers occurring in the mock data are decimal literals;
    they are kept as rationals. *)

Record Player := {
  name : string; team : string; ppg : Q; rpg : Q; apg : Q; efg : Q }.

Record SeasonStat := {
  season : string; avgPpg : Q; avgRpg : Q; avgApg : Q; avgEfg : Q }.

Record PositionCount := {
  position : string; count : Z; percentage : Q }.

Record TeamRecord := {
  tr_team : string; wins : Z; losses : Z; winRate : Q }.

Record DashboardData := {
  topPlayers : list Player;
  seasonStats : list SeasonStat;
  positionDistribution : list PositionCount;
  teamPerformance : list TeamRecord }.

(** The object returned by the query function (lines 14-43). *)
Definition mockData : DashboardData := {|
  topPlayers := [
    {| name := "Nikola Jokić"; team := "DEN"; ppg := 28.2; rpg := 12.8; apg := 8.9; efg := 0.632 |};
    {| name := "Joel Embiid"; team := "PHI"; ppg := 35.1; rpg := 11.1; apg := 5.9; efg := 0.598 |};
    {| name := "Luka Dončić"; team := "DAL"; ppg := 33.9; rpg := 8.2; apg := 9.8; efg := 0.587 |};
    {| name := "Giannis Antetokounmpo"; team := "MIL"; ppg := 30.8; rpg := 11.5; apg := 6.4; efg := 0.612 |};
    {| name := "Kevin Durant"; team := "PHX"; ppg := 29.9; rpg := 6.7; apg := 5.9; efg := 0.601 |} ];
  seasonStats := [
    {| season := "2020"; avgPpg := 22.1; avgRpg := 8.9; avgApg := 5.2; avgEfg := 0.534 |};
    {| season := "2021"; avgPpg := 22.8; avgRpg := 9.1; avgApg := 5.4; avgEfg := 0.541 |};
    {| season := "2022"; avgPpg := 23.2; avgRpg := 9.3; avgApg := 5.6; avgEfg := 0.548 |};
    {| season := "2023"; avgPpg := 23.8; avgRpg := 9.5; avgApg := 5.8; avgEfg := 0.552 |};
    {| season := "2024"; avgPpg := 24.1; avgRpg := 9.7; avgApg := 6.0; avgEfg := 0.558 |} ];
  positionDistribution := [
    {| position := "PG"; count := 120; percentage := 26.7 |};
    {| position := "SG"; count := 115; percentage := 25.6 |};
    {| position := "SF"; count := 95; percentage := 21.1 |};
    {| position := "PF"; count := 80; percentage := 17.8 |};
    {| position := "C"; count := 40; percentage := 8.9 |} ];
  teamPerformance := [
    {| tr_team := "BOS"; wins := 35; losses := 12; winRate := 0.745 |};
    {| tr_team := "MIL"; wins := 33; losses := 14; winRate := 0.702 |};
    {| tr_team := "PHI"; wins := 32; losses := 15; winRate := 0.681 |};
    {| tr_team := "DEN"; wins := 31; losses := 16; winRate := 0.660 |};
    {| tr_team := "LAC"; wins := 30; losses := 17; winRate := 0.638 |} ]
|}.

(** Component state: the two [useState] cells and react-query's cache,
    a map from query key to the data a settled query stored there. *)
Record State := {
  selectedMetric : string;
  selectedSeason : string;
  queryCache : gmap string DashboardData }.

Definition initialState : State :=
  {| selectedMetric := "ppg"; selectedSeason := "2024"; queryCache := ∅ |}.

(** [useQuery('dashboardData', async () => {...})] as it is evaluated
    inside the component, where both state variables are in scope: the
    query key and the value the query function resolves to. *)
Definition dashboardQuery (metric season_ : string) : string * DashboardData :=
  ("dashboardData", mockData).

(** What [useQuery] hands back on a render: [data] and [isLoading]. *)
Definition useQuery (q : string * DashboardData) (cache : gmap string DashboardData)
  : option DashboardData * bool :=
  match cache !! q.1 with
  | Some d => (Some d, false)
  | None => (None, true)
  end.

Record Metric := { key : string; label : string; color : string }.

Definition metrics : list Metric := [
  {| key := "ppg"; label := "Points Per Game"; color := "#3b82f6" |};
  {| key := "rpg"; label := "Rebounds Per Game"; color := "#10b981" |};
  {| key := "apg"; label := "Assists Per Game"; color := "#f59e0b" |};
  {| key := "efg"; label := "Effective FG%"; color := "#ef4444" |} ].

(** [metrics.find(m => m.key === selectedMetric)] *)
Definition findMetric (k : string) : option Metric :=
  List.find (fun m => bool_decide (key m = k)) metrics.

(** A chart element: its heading, the [data] array handed to recharts,
    the [dataKey]s drawn and the optional fill colour. *)
Record Chart (A : Type) := {
  heading : string;
  chartData : list A;
  dataKeys : list string;
  fill : option string }.
Arguments heading {A}.
Arguments chartData {A}.
Arguments dataKeys {A}.
Arguments fill {A}.

(** A [<select>]: its current value and the option values. *)
Record Select := { value : string; options : list string }.

(** One [<tr>] of the Top Players table.  The last cell is
    [(player.efg * 100).toFixed(1)] followed by a percent sign; the number
    handed to [toFixed] is kept, not its decimal text. *)
Record Row := {
  row_key : string;
  rank : nat;
  cell_name : string;
  cell_team : string;
  cell_ppg : Q;
  cell_rpg : Q;
  cell_apg : Q;
  cell_efg_percent : Q }.

Definition renderRow (index : nat) (player : Player) : Row := {|
  row_key := name player;
  rank := index + 1;
  cell_name := name player;
  cell_team := team player;
  cell_ppg := ppg player;
  cell_rpg := rpg player;
  cell_apg := apg player;
  cell_efg_percent := Qmult (efg player) 100 |}.

(** A card of the Stats Overview: title, value and the change line. *)
Record StatCard := { title : string; statValue : string; change : string }.

(** Lines 130-151: the four cards are literals of the JSX. *)
Definition statsOverview : list StatCard := [
  {| title := "Total Players"; statValue := "450"; change := "+12 from last season" |};
  {| title := "Average PPG"; statValue := "24.1"; change := "+0.3 from last season" |};
  {| title := "Average RPG"; statValue := "9.7"; change := "+0.2 from last season" |};
  {| title := "Average APG"; statValue := "6.0"; change := "+0.2 from last season" |} ].

Definition COLORS : list string := ["#0088FE"; "#00C49F"; "#FFBB28"; "#FF8042"; "#8884D8"].

(** [COLORS[index % COLORS.length]], the fill of the index-th pie cell. *)
Definition cellFill {A} (index : nat) (entry : A) : string :=
  default "" (COLORS !! (index mod length COLORS)).

Record Loaded := {
  metricSelect : Select;
  seasonSelect : Select;
  statCards : list StatCard;
  topPlayersChart : Chart Player;
  seasonTrends : Chart SeasonStat;
  positionPie : Chart PositionCount;
  pieCellFills : list string;
  teamWinRates : Chart TeamRecord;
  playersTable : list Row }.

Inductive View :=
| LoadingView
| LoadedView (v : Loaded).

Definition headingFor (metric : string) : string :=
  "Top Players by " +:+ default "" (label <$> findMetric metric).

(** The component body: lines 55-66 return the spinner while the query
    is loading, lines 68-302 build the page from [dashboardData]. *)
Definition render (st : State) : View :=
  match useQuery (dashboardQuery (selectedMetric st) (selectedSeason st)) (queryCache st) with
  | (Some dashboardData, false) =>
    LoadedView {|
      metricSelect := {| value := selectedMetric st; options := key <$> metrics |};
      seasonSelect := {| value := selectedSeason st;
                         options := ["2024"; "2023"; "2022"; "2021"; "2020"] |};
      statCards := statsOverview;
      topPlayersChart := {|
        heading := headingFor (selectedMetric st);
        chartData := topPlayers dashboardData;
        dataKeys := [selectedMetric st];
        fill := color <$> findMetric (selectedMetric st) |};
      seasonTrends := {|
        heading := "Season Trends";
        chartData := seasonStats dashboardData;
        dataKeys := ["avgPpg"; "avgRpg"; "avgApg"];
        fill := None |};
      positionPie := {|
        heading := "Position Distribution";
        chartData := positionDistribution dashboardData;
        dataKeys := ["count"];
        fill := Some "#8884d8" |};
      pieCellFills := imap cellFill (positionDistribution dashboardData);
      teamWinRates := {|
        heading := "Team Win Rates";
        chartData := teamPerformance dashboardData;
        dataKeys := ["winRate"];
        fill := Some "#3b82f6" |};
      playersTable := imap renderRow (topPlayers dashboardData) |}
  | _ => LoadingView
  end.

(** The part of a view that shows the dataset: the four data arrays that
    reach the charts and the table rows. *)
Definition renderedData (v : View)
  : option (list Player * list SeasonStat * list PositionCount * list TeamRecord * list Row) :=
  match v with
  | LoadingView => None
  | LoadedView l =>
    Some (chartData (topPlayersChart l), chartData (seasonTrends l),
          chartData (positionPie l), chartData (teamWinRates l), playersTable l)
  end.

(** A view with the current value of the season selector blanked: all
    that is rendered apart from the selector's own state. *)
Definition seasonBlind (v : View) : View :=
  match v with
  | LoadingView => LoadingView
  | LoadedView l =>
    LoadedView {|
      metricSelect := metricSelect l;
      seasonSelect := {| value := ""; options := options (seasonSelect l) |};
      statCards := statCards l;
      topPlayersChart := topPlayersChart l;
      seasonTrends := seasonTrends l;
      positionPie := positionPie l;
      pieCellFills := pieCellFills l;
      teamWinRates := teamWinRates l;
      playersTable := playersTable l |}
  end.

Definition tableOf (v : View) : list Row :=
  match v with
  | LoadingView => []
  | LoadedView l => playersTable l
  end.

(** The players the table is built from: the [topPlayers] array of the
    cached query result, none while the query is loading. *)
Definition loadedPlayers (st : State) : list Player :=
  match queryCache st !! "dashboardData" with
  | Some d => topPlayers d
  | None => []
  end.

(** Things that happen to the mounted component.  A state update made by
    an event handler is rendered before the next event is dispatched. *)
Inductive Event :=
| ChangeMetric (v : string)      (* onChange of the metric select *)
| ChangeSeason (v : string)      (* onChange of the season select *)
| QuerySettled.                  (* the query function's promise resolved *)

Definition step (st : State) (e : Event) : State :=
  match e with
  | ChangeMetric v =>
    {| selectedMetric := v; selectedSeason := selectedSeason st; queryCache := queryCache st |}
  | ChangeSeason v =>
    {| selectedMetric := selectedMetric st; selectedSeason := v; queryCache := queryCache st |}
  | QuerySettled =>
    let q := dashboardQuery (selectedMetric st) (selectedSeason st) in
    {| selectedMetric := selectedMetric st; selectedSeason := selectedSeason st;
       queryCache := <[q.1 := q.2]> (queryCache st) |}
  end.

Definition run (st : State) (evs : list Event) : State := foldl step st evs.

(** Two events that differ at most in the season they select. *)
Inductive seasonVariant : Event → Event → Prop :=
| sv_same e : seasonVariant e e
| sv_season v1 v2 : seasonVariant (ChangeSeason v1) (ChangeSeason v2).

(** Two states that differ at most in [selectedSeason]. *)
Definition sameUpToSeason (s1 s2 : State) : Prop :=
  selectedMetric s1 = selectedMetric s2 ∧ queryCache s1 = queryCache s2.

(** The option values of the season select (lines 113-117). *)
Definition seasonOptions : list string := ["2024"; "2023"; "2022"; "2021"; "2020"].

(** The events a user of the page can produce: a select delivers one of
    its option values to [onChange]. *)
Definition fromOptions (e : Event) : Prop :=
  match e with
  | ChangeMetric v => v ∈ key <$> metrics
  | ChangeSeason v => v ∈ seasonOptions
  | QuerySettled => True
  end.

(** Both selects show one of their options. *)
Definition selectionsOffered (st : State) : Prop :=
  selectedMetric st ∈ key <$> metrics ∧ selectedSeason st ∈ seasonOptions.

End Dashboard.

(* ===================================================================== *)
(** * Data collection page ([src/pages/DataCollection.js])                *)
(* ===================================================================== *)

Module DataCollection.

(** JavaScript values that occur in the handler. *)
Inductive JsVal :=
| VUndefined
| VString (s : string)
| VNumber (n : Z)
| VError (msg : string).

(** react-hot-toast: a toast is shown under an id; calling [toast.*] with
    an id that is on screen replaces that toast. *)
Inductive ToastKind := Loading | Success | Error.

Record Toast := { kind : ToastKind; message : string }.

(** What the handler can read and write: the [isCollecting] and
    [selectedSeason] state cells and the toasts on screen. *)
Record World := {
  isCollecting : bool;
  selectedSeason : string;
  toasts : gmap string Toast }.

Definition initialWorld : World :=
  {| isCollecting := false; selectedSeason := "2024"; toasts := ∅ |}.

(** How a promise settles. *)
Inductive Settlement :=
| Fulfilled (v : JsVal)
| Rejected (e : JsVal).

(** A promise that is settled by a timer: after [delay] milliseconds it
    settles as [outcome]. *)
Record Promise := { delay : Z; outcome : Settlement }.

(** Result of running a piece of an [async] function body: it finished
    with a value, threw, or stopped at an [await] on a promise with the
    rest of the body as continuation. *)
#[local] Set Warnings "-register-all".
Inductive Res (A : Type) :=
| Ret (a : A)
| Throw (e : JsVal)
| Await (p : Promise) (k : Settlement → World → World * Res A).
Arguments Ret {A}.
Arguments Throw {A}.
Arguments Await {A}.

Definition M (A : Type) : Type := World → World * Res A.

Definition ret {A} (a : A) : M A := fun w => (w, Ret a).
Definition throw {A} (e : JsVal) : M A := fun w => (w, Throw e).

Fixpoint bindRes {A B} (r : Res A) (f : A → M B) (w : World) : World * Res B :=
  match r with
  | Ret a => f a w
  | Throw e => (w, Throw e)
  | Await p k =>
    (w, Await p (fun s w1 => let (w2, r2) := k s w1 in bindRes r2 f w2))
  end.

Definition bind {A B} (m : M A) (f : A → M B) : M B :=
  fun w => let (w1, r) := m w in bindRes r f w1.

Notation "m ;; k" := (bind m (fun _ => k))
  (at level 100, k at level 200, right associativity).

(** [try { body } catch (error) { handler error }] *)
Fixpoint catchRes {A} (r : Res A) (handler : JsVal → M A) (w : World) : World * Res A :=
  match r with
  | Ret a => (w, Ret a)
  | Throw e => handler e w
  | Await p k =>
    (w, Await p (fun s w1 => let (w2, r2) := k s w1 in catchRes r2 handler w2))
  end.

Definition try_catch {A} (body : M A) (handler : JsVal → M A) : M A :=
  fun w => let (w1, r) := body w in catchRes r handler w1.

(** [try { body } finally { cleanup }]: the cleanup runs on both exits and
    the completion of the body is kept, unless the cleanup itself throws. *)
Fixpoint finallyRes {A} (r : Res A) (cleanup : M unit) (w : World) : World * Res A :=
  match r with
  | Ret a => bind cleanup (fun _ => ret a) w
  | Throw e => bind cleanup (fun _ => throw e) w
  | Await p k =>
    (w, Await p (fun s w1 => let (w2, r2) := k s w1 in finallyRes r2 cleanup w2))
  end.

Definition try_finally {A} (body : M A) (cleanup : M unit) : M A :=
  fun w => let (w1, r) := body w in finallyRes r cleanup w1.

Definition try_catch_finally {A} (body : M A) (handler : JsVal → M A) (cleanup : M unit) : M A :=
  try_finally (try_catch body handler) cleanup.

(** [await p]: stop until [p] settles; a fulfilled promise gives its value,
    a rejected one throws its reason at the [await]. *)
Definition await (p : Promise) : M JsVal :=
  fun w => (w, Await p (fun s w1 =>
    match s with
    | Fulfilled v => (w1, Ret v)
    | Rejected e => (w1, Throw e)
    end)).

(** [new Promise(resolve => setTimeout(resolve, ms))]: the executor only
    registers [resolve] as the timer callback; the timer calls it without
    an argument and nothing calls [reject]. *)
Definition timeoutPromise (ms : Z) : Promise :=
  {| delay := ms; outcome := Fulfilled VUndefined |}.

Definition setIsCollecting (b : bool) : M unit :=
  fun w => ({| isCollecting := b; selectedSeason := selectedSeason w; toasts := toasts w |},
            Ret ()).

Definition showToast (k : ToastKind) (msg id : string) : M unit :=
  fun w => ({| isCollecting := isCollecting w; selectedSeason := selectedSeason w;
               toasts := <[id := {| kind := k; message := msg |}]> (toasts w) |},
            Ret ()).

Definition toast_loading := showToast Loading.
Definition toast_success := showToast Success.
Definition toast_error := showToast Error.

(** Lines 104-118.  The arrow function has no [return]: when its body
    completes normally the promise it returned is fulfilled with
    [undefined]. *)
Definition handleStartCollection : M JsVal :=
  setIsCollecting true ;;
  toast_loading "Starting data collection..." "collection" ;;
  try_catch_finally
    (await (timeoutPromise 3000) ;;
     toast_success "Data collection completed successfully!" "collection")
    (fun error => toast_error "Data collection failed. Please try again." "collection")
    (setIsCollecting false) ;;
  ret VUndefined.

(** The same handler around a body whose awaited promise is left open,
    used to exercise the [catch] branch of the model. *)
Definition collectionHandlerAround (p : Promise) : M JsVal :=
  setIsCollecting true ;;
  toast_loading "Starting data collection..." "collection" ;;
  try_catch_finally
    (await p ;;
     toast_success "Data collection completed successfully!" "collection")
    (fun error => toast_error "Data collection failed. Please try again." "collection")
    (setIsCollecting false) ;;
  ret VUndefined.

(** The Start Collection button (lines 281-297). *)
Record Button := { disabled : bool; loadingClass : bool; caption : string }.

Definition renderButton (w : World) : Button :=
  {| disabled := isCollecting w;
     loadingClass := isCollecting w;
     caption := if isCollecting w then "Collecting Data..." else "Start Collection" |}.

(** A suspended invocation of the handler: the time its timer is due, how
    the awaited promise settles, and the rest of the body. *)
Record Task := {
  due : Z;
  settles : Settlement;
  resume : Settlement → World → World * Res JsVal }.

(** The mounted page: component state, the clock, the invocations that
    wait on a timer, and the settlements of the promises that finished
    invocations returned (oldest last). *)
Record Page := {
  world : World;
  now : Z;
  tasks : list Task;
  finished : list Settlement }.

Definition initialPage : Page :=
  {| world := initialWorld; now := 0; tasks := []; finished := [] |}.

(** Book-keeping after a piece of an invocation ran. *)
Definition settle (pg : Page) (others : list Task) (out : World * Res JsVal) : Page :=
  match out with
  | (w, Ret v) =>
    {| world := w; now := now pg; tasks := others; finished := Fulfilled v :: finished pg |}
  | (w, Throw e) =>
    {| world := w; now := now pg; tasks := others; finished := Rejected e :: finished pg |}
  | (w, Await p k) =>
    {| world := w; now := now pg;
       tasks := others ++ [{| due := now pg + delay p; settles := outcome p; resume := k |}];
       finished := finished pg |}
  end.

Inductive Event :=
| ClickStart                   (* a click on the Start Collection button *)
| SelectSeason (v : string)    (* onChange of the season select *)
| Advance (ms : Z)             (* time passes *)
| TimerFires (i : nat).        (* the timer of the i-th waiting invocation fires *)

(** A click reaches [onClick] only when the button is not disabled; a
    timer callback runs only once its delay has elapsed.  A state update
    made by a handler is rendered before the next event is dispatched. *)
Definition step (pg : Page) (e : Event) : Page :=
  match e with
  | ClickStart =>
    if disabled (renderButton (world pg)) then pg
    else settle pg (tasks pg) (handleStartCollection (world pg))
  | SelectSeason v =>
    {| world := {| isCollecting := isCollecting (world pg); selectedSeason := v;
                   toasts := toasts (world pg) |};
       now := now pg; tasks := tasks pg; finished := finished pg |}
  | Advance ms =>
    {| world := world pg; now := now pg + Z.max 0 ms; tasks := tasks pg;
       finished := finished pg |}
  | TimerFires i =>
    match tasks pg !! i with
    | Some t =>
      if bool_decide (due t ≤ now pg)%Z
      then settle pg (delete i (tasks pg)) (resume t (settles t) (world pg))
      else pg
    | None => pg
    end
  end.

Definition run (pg : Page) (evs : list Event) : Page := foldl step pg evs.

Definition loadingToast : Toast :=
  {| kind := Loading; message := "Starting data collection..." |}.

Definition successToast : Toast :=
  {| kind := Success; message := "Data collection completed successfully!" |}.

(** The world right after the synchronous part of the handler. *)
Definition started (w : World) : World :=
  {| isCollecting := true; selectedSeason := selectedSeason w;
     toasts := <["collection" := loadingToast]> (toasts w) |}.

(** The world after the rest of the handler ran on [w] without error. *)
Definition completed (w : World) : World :=
  {| isCollecting := false; selectedSeason := selectedSeason w;
     toasts := <["collection" := successToast]> (toasts w) |}.

(** The continuation the handler leaves at its [await]. *)
Definition afterTimer (s : Settlement) (w : World) : World * Res JsVal :=
  match (handleStartCollection initialWorld).2 with
  | Await _ k => k s w
  | r => (w, r)
  end.

(** A waiting invocation of the handler as the page keeps it. *)
Definition goodTask (pg : Page) (t : Task) : Prop :=
  settles t = Fulfilled VUndefined ∧ resume t = afterTimer ∧ (due t ≤ now pg + 3000)%Z.

(** What holds of every page reachable from [initialPage]. *)
Record Inv (pg : Page) : Prop := {
  inv_tasks : Forall (goodTask pg) (tasks pg);
  inv_single : (length (tasks pg) ≤ 1)%nat;
  inv_flag : isCollecting (world pg) = bool_decide (tasks pg ≠ []);
  inv_noerr : ∀ i t, toasts (world pg) !! i = Some t → kind t ≠ Error;
  inv_finished : Forall (λ s, s = Fulfilled VUndefined) (finished pg);
  inv_success : tasks pg = [] → finished pg ≠ [] →
                toasts (world pg) !! "collection" = Some successToast }.

(** An identifier of a collection run, were one returned. *)
Definition isRunId (v : JsVal) : Prop :=
  match v with
  | VString _ | VNumber _ => True
  | _ => False
  end.

(** The value an invocation hands to its caller at once: [None] while the
    returned promise is pending. *)
Definition immediateValue (out : World * Res JsVal) : option Settlement :=
  match out.2 with
  | Ret v => Some (Fulfilled v)
  | Throw e => Some (Rejected e)
  | Await _ _ => None
  end.

Definition errorToast : Toast :=
  {| kind := Error; message := "Data collection failed. Please try again." |}.

(** The world after the rest of the handler ran on [w], the awaited
    promise having settled as [s]. *)
Definition settledWorld (s : Settlement) (w : World) : World :=
  {| isCollecting := false; selectedSeason := selectedSeason w;
     toasts := <["collection" := match s with
                                  | Fulfilled _ => successToast
                                  | Rejected _ => errorToast
                                  end]> (toasts w) |}.

(** Two events that differ at most in the season they select. *)
Inductive seasonVariant : Event → Event → Prop :=
| sv_same e : seasonVariant e e
| sv_season v1 v2 : seasonVariant (SelectSeason v1) (SelectSeason v2).

(** The season the select shows after some events. *)
Definition lastSeason (s0 : string) (evs : list Event) : string :=
  foldl (λ s e, match e with SelectSeason v => v | _ => s end) s0 evs.

(** The time that passes during some events, in milliseconds. *)
Definition elapsed (evs : list Event) : Z :=
  foldr (λ e acc, match e with Advance ms => Z.max 0 ms + acc | _ => acc end)%Z 0%Z evs.

(** Two pages that differ at most in the selected season. *)
Definition sameUpToSeason (p1 p2 : Page) : Prop :=
  isCollecting (world p1) = isCollecting (world p2) ∧
  toasts (world p1) = toasts (world p2) ∧
  now p1 = now p2 ∧ tasks p1 = tasks p2 ∧ finished p1 = finished p2.

(** A collection is in progress on [pg] and its timer is not due within
    the next [budget] milliseconds. *)
Record Waiting (pg : Page) (budget : Z) : Prop := {
  w_inv : Inv pg;
  w_flag : isCollecting (world pg) = true;
  w_toast : toasts (world pg) !! "collection" = Some loadingToast;
  w_due : ∀ t, t ∈ tasks pg → (now pg + budget < due t)%Z }.

End DataCollection.

(* ===================================================================== *)
(** * Collection pipeline                                                  *)
(* ===================================================================== *)

(** The constants come from the scraping specification of the repository
    ([SOURCE_STATUS], [RETRY_CONFIG], [VALIDATION_RULES]).  The functions
    that consume them belong to the Python collection modules; each is
    written from the design document and marked as such.  Rate limiting,
    the circuit breaker, cancellation, the run deadline and commits of
    concurrent runs are left out: a run is executed in isolation. *)

Module Pipeline.

(** ** Constants taken from the scraping specification *)

(** The keys of [SOURCE_STATUS]. *)
Inductive SourceId := basketball_reference | nba_com | kaggle.

#[global] Instance SourceId_eq_dec : EqDecision SourceId.
Proof. solve_decision. Defined.

#[global] Instance SourceId_countable : Countable SourceId.
Proof.
  refine (inj_countable'
    (λ s, match s with basketball_reference => 0 | nba_com => 1 | kaggle => 2 end)
    (λ n, match n with 0 => basketball_reference | 1 => nba_com | _ => kaggle end) _).
  by intros [].
Defined.

(** [RETRY_CONFIG]; delays are in seconds. *)
Record RetryConfig := {
  max_retries : nat;
  retry_delay : Z;
  backoff_factor : Z;
  timeout : Z;
  exponential_backoff : bool }.

Definition RETRY_CONFIG : RetryConfig := {|
  max_retries := 3;
  retry_delay := 5;
  backoff_factor := 2;
  timeout := 30;
  exponential_backoff := true |}.

Inductive DataType := dt_string | dt_float | dt_integer.

(** [VALIDATION_RULES]: Python dictionaries keep insertion order, so the
    two inner dictionaries are association lists; a range is the pair
    (lowest, highest) plausible value. *)
Record ValidationRules := {
  required_fields : list string;
  numeric_ranges : list (string * (Qc * Qc));
  data_types : list (string * DataType) }.

(** A decimal literal as an exact rational. *)
Definition num (q : Q) : Qc := Q2Qc q.

Definition VALIDATION_RULES : ValidationRules := {|
  required_fields := ["player_name"; "team"; "ppg"; "rpg"; "apg"];
  numeric_ranges := [
    ("ppg", (num 0, num 50));
    ("rpg", (num 0, num 20));
    ("apg", (num 0, num 15));
    ("efg", (num 0, num 1));
    ("ts", (num 0, num 1)) ]%Q;
  data_types := [
    ("player_name", dt_string);
    ("ppg", dt_float);
    ("games_played", dt_integer) ] |}.

(** ** Data model *)

(** Modelled from the spec: the four kinds of error a Source Adapter
    surfaces (the adapters are Python code). *)
Inductive SourceError := transient | permanent | rate_limited | parse_error.

(** Modelled from the spec: a raw field value, the tagged union
    string | number | null | unknown of the design notes. *)
Inductive RawValue :=
| VStr (s : string)
| VNum (q : Qc)
| VNull
| VUnknown.

#[global] Instance RawValue_eq_dec : EqDecision RawValue.
Proof. solve_decision. Defined.

(** Modelled from the spec: RawRecord.  Source identifier, the entity key
    as the source supplied it, the field mapping and the fetch timestamp. *)
Record RawRecord := {
  source : SourceId;
  raw_name : string;
  raw_team : string;
  raw_season : string;
  fields : gmap string RawValue;
  fetched_at : Z }.

(** Modelled from the spec: the status of a ValidationOutcome. *)
Inductive Status := accepted | repaired | rejected.

#[global] Instance Status_eq_dec : EqDecision Status.
Proof. solve_decision. Defined.

(** Modelled from the spec: the rule a violation refers to. *)
Inductive Rule :=
| rule_required
| rule_range (lo hi : Qc).

(** Modelled from the spec: a field-level violation (field, rule,
    observed value). *)
Record Violation := {
  v_field : string;
  v_rule : Rule;
  v_observed : option RawValue }.

(** Modelled from the spec: ValidationOutcome.  [substituted] maps every
    repaired field to the value put in its place. *)
Record ValidationOutcome := {
  record : RawRecord;
  status : Status;
  violations : list Violation;
  substituted : gmap string RawValue }.

(** Modelled from the spec: EntityKey (normalized player name, resolved
    team code, season). *)
Record EntityKey := {
  ek_name : string;
  ek_team : string;
  ek_season : string }.

#[global] Instance EntityKey_eq_dec : EqDecision EntityKey.
Proof. solve_decision. Defined.

#[global] Instance EntityKey_countable : Countable EntityKey.
Proof.
  refine (inj_countable'
    (λ k, (ek_name k, ek_team k, ek_season k))
    (λ t, {| ek_name := t.1.1; ek_team := t.1.2; ek_season := t.2 |}) _).
  by intros [].
Defined.

(** Modelled from the spec: a typed field value of a CanonicalRecord. *)
Inductive CanonValue :=
| CNum (q : Qc)
| CStr (s : string).

#[global] Instance CanonValue_eq_dec : EqDecision CanonValue.
Proof. solve_decision. Defined.

#[global] Instance CanonValue_countable : Countable CanonValue.
Proof.
  refine (inj_countable'
    (λ v, match v with CNum q => inl q | CStr s => inr s end)
    (λ x, match x with inl q => CNum q | inr s => CStr s end) _).
  by intros [].
Defined.

(** Modelled from the spec: a field of a CanonicalRecord, tagged with the
    contributing source and a confidence score, and flagged when sources
    disagree beyond the tolerance. *)
Record CanonicalField := {
  cf_value : CanonValue;
  cf_source : SourceId;
  cf_confidence : Qc;
  cf_conflicted : bool }.

(** Modelled from the spec: CanonicalRecord, one per EntityKey. *)
Record CanonicalRecord := {
  cr_key : EntityKey;
  cr_fields : gmap string CanonicalField }.

(** Modelled from the spec: one entry of the configured source list. *)
Record SourceConfig := {
  id : SourceId;
  precedence : nat;
  maxRequestsPerMinute : nat;
  minDelay : Z }.

(** Modelled from the spec: the configuration surface.  The name folding,
    the team-code table and the confidence formula are named by the
    design document but not given; they are configuration here.  The
    design document names a cap on the retry delay without a default and
    [RETRY_CONFIG] has none, so the cap is optional. *)
Record Config := {
  sources : list SourceConfig;
  validation_rules : ValidationRules;
  max_invalid_fraction : Qc;
  tolerance : string → Qc;
  run_timeout : Z;
  retry : RetryConfig;
  backoff_cap : option Z;
  normalize_name : string → string;
  resolve_team : string → string;
  confidence_score : gset SourceId → bool → Qc }.

(** ** Backoff policy and source adapters *)

(** Modelled from the spec: nextRetryDelay(attempt) =
    min(base * factor^attempt, cap), the retry function of the Backoff
    Policy; attempts are counted from 0. *)
Definition nextRetryDelay (rc : RetryConfig) (cap : option Z) (attempt : nat) : Z :=
  let d := (retry_delay rc * backoff_factor rc ^ Z.of_nat attempt)%Z in
  match cap with
  | Some c => Z.min d c
  | None => d
  end.


(** Modelled from the spec: which adapter errors trigger the Backoff
    Policy.  Transient and rate-limited errors do; permanent and parse
    errors do not. *)
Definition retryable (e : SourceError) : bool :=
  match e with
  | transient | rate_limited => true
  | permanent | parse_error => false
  end.

(** Modelled from the spec: what a source sends for one record, before
    the adapter stamps source and fetch time on it. *)
Record Payload := {
  p_name : string;
  p_team : string;
  p_season : string;
  p_fields : gmap string RawValue }.

(** Modelled from the spec: the answer of a source to one request. *)
Inductive Response :=
| Fetched (ps : list Payload)
| Failure (e : SourceError).

(** Modelled from the spec: the fixed responses of one source for a
    scope.  The number of scope units and, per unit and per request
    number on that unit (0 is the first request), the answer. *)
Record Feed := {
  feed_units : nat;
  respond : nat → nat → Response }.

(** Modelled from the spec: how the fetch of one scope unit ends. *)
Inductive UnitOutcome :=
| UnitDone (ps : list Payload)
| UnitSkipped (e : SourceError)
| UnitExhausted.

(** Modelled from the spec: the fetch of one scope unit under the Backoff
    Policy.  A failed fetch is retried from the start of the unit after
    waiting nextRetryDelay(attempt).  The attempts are those of the source
    in this run: [attempt] retries have been made by the source so far,
    [budget] are left, and [request] numbers the requests on this unit.
    Returns the waits made between the requests, in order. *)
Fixpoint fetchUnit (rc : RetryConfig) (cap : option Z) (answer : nat → Response)
    (budget attempt request : nat) : list Z * UnitOutcome :=
  match answer request with
  | Fetched ps => ([], UnitDone ps)
  | Failure e =>
    if retryable e then
      match budget with
      | 0 => ([], UnitExhausted)
      | S b =>
        let (ws, out) := fetchUnit rc cap answer b (S attempt) (S request) in
        (nextRetryDelay rc cap attempt :: ws, out)
      end
    else ([], UnitSkipped e)
  end.

(** Modelled from the spec: the per-source status of a CollectionRun. *)
Inductive SourceStatus :=
| src_pending | src_running | src_succeeded | src_failed | src_partial.

#[global] Instance SourceStatus_eq_dec : EqDecision SourceStatus.
Proof. solve_decision. Defined.

(** Modelled from the spec: an entry of the aggregate error list of a
    run. *)
Inductive RunError :=
| SourceFailure (s : SourceId) (unit_ : nat) (e : option SourceError)
| ValidationRejection (r : RawRecord) (vs : list Violation)
| ReconciliationConflict (k : EntityKey) (field : string).

(** Modelled from the spec: what one Source Adapter hands to the Run
    Coordinator when it is done. *)
Record SourceResult := {
  sr_source : SourceId;
  sr_status : SourceStatus;
  sr_records : list RawRecord;
  sr_errors : list RunError;
  sr_waits : list Z;
  sr_end : Z }.

(** Modelled from the spec: the adapter's mapping of a payload into the
    source-neutral RawRecord shape. *)
Definition toRaw (s : SourceId) (t : Z) (p : Payload) : RawRecord := {|
  source := s;
  raw_name := p_name p;
  raw_team := p_team p;
  raw_season := p_season p;
  fields := p_fields p;
  fetched_at := t |}.

Definition sumZ (l : list Z) : Z := foldr Z.add 0%Z l.

(** Modelled from the spec: the scope traversal of a Source Adapter, one
    unit after the other, the source having made [used] retries so far.
    The clock advances by the waits of the Backoff Policy and a record is
    stamped with the time of the request that fetched it.  When a retry
    is needed and the attempts of the source are exhausted, the source is
    marked failed for the run and contributes nothing; a unit with a
    permanent or parse error is recorded and skipped, leaving the source
    partial. *)
Fixpoint fetchUnits (rc : RetryConfig) (cap : option Z) (s : SourceId) (feed : Feed)
    (units : list nat) (used : nat) (t0 : Z) : SourceResult :=
  match units with
  | [] =>
    {| sr_source := s; sr_status := src_succeeded; sr_records := [];
       sr_errors := []; sr_waits := []; sr_end := t0 |}
  | u :: rest =>
    let (ws, out) := fetchUnit rc cap (respond feed u) (max_retries rc - used) used 0 in
    let t := (t0 + sumZ ws)%Z in
    match out with
    | UnitExhausted =>
      {| sr_source := s; sr_status := src_failed; sr_records := [];
         sr_errors := [SourceFailure s u None]; sr_waits := ws; sr_end := t |}
    | UnitDone ps =>
      let r := fetchUnits rc cap s feed rest (used + length ws) t in
      {| sr_source := s; sr_status := sr_status r;
         sr_records := if decide (sr_status r = src_failed) then []
                       else (toRaw s t <$> ps) ++ sr_records r;
         sr_errors := sr_errors r; sr_waits := ws ++ sr_waits r; sr_end := sr_end r |}
    | UnitSkipped e =>
      let r := fetchUnits rc cap s feed rest (used + length ws) t in
      {| sr_source := s;
         sr_status := if decide (sr_status r = src_failed) then src_failed else src_partial;
         sr_records := sr_records r;
         sr_errors := SourceFailure s u (Some e) :: sr_errors r;
         sr_waits := ws ++ sr_waits r; sr_end := sr_end r |}
    end
  end.

(** Modelled from the spec: fetch(scope) of the adapter of source [s],
    started at time [t0] against the responses [world]. *)
Definition fetchSource (cfg : Config) (world : SourceId → Feed) (t0 : Z) (s : SourceId)
  : SourceResult :=
  fetchUnits (retry cfg) (backoff_cap cfg) s (world s) (seq 0 (feed_units (world s))) 0 t0.

(** ** Validator *)

(** Modelled from the spec: the Validator's presence test.  A field is
    missing when the mapping has no entry for it or the entry is null. *)
Definition present (r : RawRecord) (f : string) : bool :=
  match fields r !! f with
  | Some VNull | None => false
  | Some _ => true
  end.

(** Modelled from the spec: the required fields a record lacks. *)
Definition missingRequired (rules : ValidationRules) (r : RawRecord) : list string :=
  filter (λ f, present r f = false) (required_fields rules).

(** Modelled from the spec: membership in a plausible range, bounds
    included. *)
Definition inRange (lo hi v : Qc) : bool :=
  bool_decide (lo ≤ v)%Qc && bool_decide (v ≤ hi)%Qc.

(** Modelled from the spec: the range rule of one field checked on a
    record; a violation when the field holds a number outside the range. *)
Definition checkRange (r : RawRecord) (rule : string * (Qc * Qc)) : option Violation :=
  match fields r !! rule.1 with
  | Some (VNum v) =>
    if inRange rule.2.1 rule.2.2 v then None
    else Some {| v_field := rule.1; v_rule := rule_range rule.2.1 rule.2.2;
                 v_observed := Some (VNum v) |}
  | _ => None
  end.

(** Modelled from the spec: all range violations of a record. *)
Definition rangeViolations (rules : ValidationRules) (r : RawRecord) : list Violation :=
  omap (checkRange r) (numeric_ranges rules).

(** Modelled from the spec: the required fields that are invalid. *)
Definition invalidRequired (rules : ValidationRules) (r : RawRecord) : list string :=
  filter (λ f, f ∈ v_field <$> rangeViolations rules r) (required_fields rules).

(** Modelled from the spec: more than the configured fraction of the
    required fields are invalid. *)
Definition tooManyInvalid (cfg : Config) (r : RawRecord) : bool :=
  bool_decide
    (max_invalid_fraction cfg
       * num (inject_Z (Z.of_nat (length (required_fields (validation_rules cfg)))))
     < num (inject_Z (Z.of_nat (length (invalidRequired (validation_rules cfg) r)))))%Qc.

(** Modelled from the spec: validate(RawRecord) of the Validator.  A
    missing required field rejects; otherwise numbers outside their range
    are clamped to null and the record is repaired, unless too many
    required fields are invalid, which rejects. *)
Definition validate (cfg : Config) (r : RawRecord) : ValidationOutcome :=
  let rules := validation_rules cfg in
  match missingRequired rules r with
  | _ :: _ =>
    {| record := r; status := rejected;
       violations := (λ f, {| v_field := f; v_rule := rule_required;
                              v_observed := fields r !! f |}) <$> missingRequired rules r;
       substituted := ∅ |}
  | [] =>
    match rangeViolations rules r with
    | [] => {| record := r; status := accepted; violations := []; substituted := ∅ |}
    | vs =>
      if tooManyInvalid cfg r
      then {| record := r; status := rejected; violations := vs; substituted := ∅ |}
      else {| record := r; status := repaired; violations := vs;
              substituted := list_to_map ((λ v, (v_field v, VNull)) <$> vs) |}
    end
  end.

(** Modelled from the spec: the fields of a validated record that are
    usable; a repaired field is absent. *)
Definition usableFields (o : ValidationOutcome) : gmap string RawValue :=
  fields (record o) ∖ substituted o.

(** Modelled from the spec: the hand-over from the Validator to the
    Reconciler; rejected records never reach the Reconciler. *)
Definition reconcilerInput (cfg : Config) (raws : list RawRecord) : list ValidationOutcome :=
  filter (λ o, status o ≠ rejected) (validate cfg <$> raws).

(** ** Reconciler *)

(** Modelled from the spec: what the Reconciler reads of a validated
    record, namely its source, the raw entity key and the usable fields. *)
Record Contribution := {
  c_source : SourceId;
  c_name : string;
  c_team : string;
  c_season : string;
  c_fields : gmap string RawValue }.

Definition contribution (o : ValidationOutcome) : Contribution := {|
  c_source := source (record o);
  c_name := raw_name (record o);
  c_team := raw_team (record o);
  c_season := raw_season (record o);
  c_fields := usableFields o |}.


(** Modelled from the spec: the name-and-season match of entity-key
    resolution. *)
Definition sameNameSeason (cfg : Config) (c1 c2 : Contribution) : Prop :=
  normalize_name cfg (c_name c1) = normalize_name cfg (c_name c2) ∧
  c_season c1 = c_season c2.

#[global] Instance sameNameSeason_dec cfg c1 c2 : Decision (sameNameSeason cfg c1 c2).
Proof. unfold sameNameSeason. apply _. Defined.

Definition teamOf (cfg : Config) (c : Contribution) : string :=
  resolve_team cfg (c_team c).

(** The contributions for the name and season of [c]. *)
Definition namesakes (cfg : Config) (all : list Contribution) (c : Contribution)
  : list Contribution :=
  filter (sameNameSeason cfg c) all.

Definition votes (cfg : Config) (all : list Contribution) (c : Contribution) (t : string) : nat :=
  length (filter (λ c', teamOf cfg c' = t) (namesakes cfg all c)).

(** Modelled from the spec: the majority rule for ambiguous matches.
    Team [t] has the majority when more than half of the reports for this
    name and season give it. *)
Definition isMajority (cfg : Config) (all : list Contribution) (c : Contribution) (t : string)
  : Prop :=
  (length (namesakes cfg all c) < 2 * votes cfg all c t)%nat.

#[global] Instance isMajority_dec cfg all c t : Decision (isMajority cfg all c t).
Proof. unfold isMajority. apply _. Defined.

Definition majorityTeam (cfg : Config) (all : list Contribution) (c : Contribution)
  : option string :=
  List.find (λ t, bool_decide (isMajority cfg all c t)) (teamOf cfg <$> namesakes cfg all c).

(** Modelled from the spec: entity-key resolution of the Reconciler.
    Normalized name, team code and season; reports that differ in the
    team are put under the majority team, and without a majority each
    keeps its own key. *)
Definition resolveKey (cfg : Config) (all : list Contribution) (c : Contribution) : EntityKey :=
  {| ek_name := normalize_name cfg (c_name c);
     ek_team := default (teamOf cfg c) (majorityTeam cfg all c);
     ek_season := c_season c |}.

(** Modelled from the spec: a candidate value for a field, the reporting
    source and the value. *)
Definition Candidate : Type := SourceId * CanonValue.

Definition toCanon (v : RawValue) : option CanonValue :=
  match v with
  | VNum q => Some (CNum q)
  | VStr s => Some (CStr s)
  | VNull | VUnknown => None
  end.

Definition candidateOf (f : string) (c : Contribution) : option Candidate :=
  v ← c_fields c !! f; cv ← toCanon v; Some (c_source c, cv).

(** Modelled from the spec: the candidate values of a field, collected
    from all contributing records. *)
Definition candidates (f : string) (group : list Contribution) : list Candidate :=
  omap (candidateOf f) group.

Definition numericValue (c : Candidate) : option Qc :=
  match c.2 with
  | CNum q => Some q
  | CStr _ => None
  end.

(** Modelled from the spec: the median of all candidates, the middle one
    of the sorted numbers or the mean of the two middle ones. *)
Definition median (qs : list Qc) : option Qc :=
  let sorted := merge_sort Qcle qs in
  let n := length sorted in
  if Nat.even n
  then a ← sorted !! (n / 2 - 1); b ← sorted !! (n / 2); Some ((a + b) / num 2)%Qc
  else sorted !! (n / 2).

Definition findSource (cfg : Config) (s : SourceId) : option SourceConfig :=
  List.find (λ sc, bool_decide (id sc = s)) (sources cfg).

(** Modelled from the spec: the configured precedence of a source; rank 1
    outranks rank 2.  A source that is not configured ranks after every
    configured one. *)
Definition precedenceOf (cfg : Config) (s : SourceId) : nat :=
  match findSource cfg s with
  | Some sc => precedence sc
  | None => S (max_list (precedence <$> sources cfg))
  end.

(** The position of a source in the configured list. *)
Fixpoint positionIn (l : list SourceConfig) (s : SourceId) : nat :=
  match l with
  | [] => 0
  | sc :: rest => if decide (id sc = s) then 0 else S (positionIn rest s)
  end.

Definition distance (med : option Qc) (c : Candidate) : Qc :=
  match med, numericValue c with
  | Some m, Some q => Qcabs (q - m)
  | _, _ => num 0
  end.

#[global] Instance Qc_lexico : Lexico Qc := Qclt.

#[global] Instance Qc_lexico_po : StrictOrder (@lexico Qc _).
Proof.
  split.
  - intros x Hx. exact (Qclt_not_eq _ _ Hx eq_refl).
  - intros x y z. apply Qclt_trans.
Qed.

#[global] Instance Qc_lexico_trichotomy : TrichotomyT (@lexico Qc _).
Proof.
  intros x y. unfold lexico, Qc_lexico.
  destruct (Qclt_le_dec x y) as [Hxy|Hyx]; [left; left; exact Hxy|].
  destruct (Qclt_le_dec y x) as [Hlt|Hle]; [right; exact Hlt|].
  left; right. apply Qcle_antisym; assumption.
Defined.

(** Modelled from the spec: the rank of a candidate.  Precedence of its
    source first, then the distance to the median of all candidates, then
    the position of the source in the configuration (first-configured
    wins).  The design document gives no further rule. *)
Definition rankKey (cfg : Config) (med : option Qc) (c : Candidate) : nat * (Qc * nat) :=
  (precedenceOf cfg c.1, (distance med c, positionIn (sources cfg) c.1)).

(** The order a key induces: [x] comes no later than [y]. *)
Definition keyLe {A K : Type} `{Lexico K} (key : A → K) (x y : A) : Prop :=
  ¬ lexico (key y) (key x).

Definition outranks (cfg : Config) (med : option Qc) : relation Candidate :=
  keyLe (rankKey cfg med).

#[global] Instance outranks_dec cfg med c1 c2 : Decision (outranks cfg med c1 c2).
Proof. unfold outranks, keyLe. apply _. Defined.

(** Modelled from the spec: the candidate the Reconciler selects, the
    first of the candidates sorted by rank.  Where the rules leave two
    candidates of equal rank, their order in the list decides. *)
Definition best (cfg : Config) (cands : list Candidate) : option Candidate :=
  head (merge_sort (outranks cfg (median (omap numericValue cands))) cands).

(** Modelled from the spec: disagreement beyond the tolerance of a
    field. *)
Definition disagree (tol : Qc) (v1 v2 : CanonValue) : Prop :=
  match v1, v2 with
  | CNum a, CNum b => (tol < Qcabs (a - b))%Qc
  | _, _ => v1 ≠ v2
  end.

#[global] Instance disagree_dec tol v1 v2 : Decision (disagree tol v1 v2).
Proof. destruct v1, v2; simpl; apply _. Defined.

(** Modelled from the spec: the conflict flag of a field, raised when two
    different sources report values that disagree beyond the tolerance. *)
Definition conflicted (cfg : Config) (f : string) (cands : list Candidate) : bool :=
  bool_decide (Exists (λ c1, Exists (λ c2,
    c1.1 ≠ c2.1 ∧ disagree (tolerance cfg f) c1.2 c2.2) cands) cands).

(** Modelled from the spec: the selection for one field.  The confidence
    is a function of which sources contributed and of the conflict flag
    (conflicts degrade confidence). *)
Definition selectField (cfg : Config) (f : string) (cands : list Candidate)
  : option CanonicalField :=
  w ← best cfg cands;
  Some {| cf_value := w.2;
          cf_source := w.1;
          cf_confidence := confidence_score cfg (list_to_set cands.*1) (conflicted cfg f cands);
          cf_conflicted := conflicted cfg f cands |}.

Definition fieldNames (group : list Contribution) : gset string :=
  ⋃ ((λ c, dom (c_fields c)) <$> group).

(** Modelled from the spec: merge(entityKey, records of this run) of the
    Reconciler. *)
Definition merge (cfg : Config) (k : EntityKey) (group : list Contribution) : CanonicalRecord :=
  {| cr_key := k;
     cr_fields := map_imap (λ f _, selectField cfg f (candidates f group))
                           (gset_to_gmap () (fieldNames group)) |}.

(** The contributions grouped under an entity key. *)
Definition groupOf (cfg : Config) (all : list Contribution) (k : EntityKey) : list Contribution :=
  filter (λ c, resolveKey cfg all c = k) all.

(** Modelled from the spec: the Reconciler over all contributions of a
    run, one CanonicalRecord per resolved EntityKey. *)
Definition reconcileContributions (cfg : Config) (all : list Contribution)
  : gmap EntityKey CanonicalRecord :=
  map_imap (λ k _, Some (merge cfg k (groupOf cfg all k)))
           (gset_to_gmap () (list_to_set (resolveKey cfg all <$> all))).

Definition reconcile (cfg : Config) (input : list ValidationOutcome)
  : gmap EntityKey CanonicalRecord :=
  reconcileContributions cfg (contribution <$> input).




(** ** Canonical store *)

(** Modelled from the spec: the status of a CollectionRun. *)
Inductive RunStatus := pending | running | succeeded | partial | failed.

#[global] Instance RunStatus_eq_dec : EqDecision RunStatus.
Proof. solve_decision. Defined.

(** Modelled from the spec: the outcome of a CollectionRun. *)
Inductive Outcome := committed | aborted.

(** Modelled from the spec: the scope of a run (season identifier,
    optional entity subset, optional source subset). *)
Record Scope := {
  scope_season : string;
  scope_entities : option (list string);
  scope_sources : option (list SourceId) }.

(** Modelled from the spec: CollectionRun.  The outcome is unset until
    the run is terminal. *)
Record CollectionRun := {
  run_id : nat;
  run_scope : Scope;
  started : Z;
  ended : Z;
  per_source : list (SourceId * SourceStatus);
  errors : list RunError;
  run_status : RunStatus;
  outcome : option Outcome }.

(** Modelled from the spec: the Canonical Store.  Committed versions are
    append-only, each the CanonicalRecords of one run; the run history is
    kept next to them. *)
Record Store := {
  versions : list (nat * gmap EntityKey CanonicalRecord);
  runs : list CollectionRun }.

(** Modelled from the spec: commit(runId, canonicalRecords) of the
    Canonical Store, for a run executed in isolation. *)
Definition commit (runId : nat) (recs : gmap EntityKey CanonicalRecord) (st : Store) : Store :=
  {| versions := versions st ++ [(runId, recs)]; runs := runs st |}.

(** Modelled from the spec: the persistence of CollectionRun metadata. *)
Definition recordRun (run : CollectionRun) (st : Store) : Store :=
  {| versions := versions st; runs := runs st ++ [run] |}.

(** Modelled from the spec: history(entityKey), the prior versions of an
    entity, oldest first. *)
Definition history (st : Store) (k : EntityKey) : list CanonicalRecord :=
  omap (λ v, v.2 !! k) (versions st).

(** Modelled from the spec: query(entityKey), the latest committed
    version of an entity. *)
Definition query (st : Store) (k : EntityKey) : option CanonicalRecord :=
  last (history st k).

(** ** Run coordinator *)

Definition inScope (sc : Scope) (s : SourceId) : bool :=
  match scope_sources sc with
  | None => true
  | Some l => bool_decide (s ∈ l)
  end.

(** Modelled from the spec: the sources of a run, all configured ones
    unless the scope names a subset. *)
Definition selectedSources (cfg : Config) (sc : Scope) : list SourceId :=
  List.filter (inScope sc) (id <$> sources cfg).

Definition sourceFailed (r : SourceResult) : bool :=
  bool_decide (sr_status r = src_failed).

(** Modelled from the spec: the records of the sources of a run that the
    Validator lets through (accepted or repaired). *)
Definition acceptedRecords (cfg : Config) (results : list SourceResult)
  : list ValidationOutcome :=
  reconcilerInput cfg (results ≫= sr_records).

(** Modelled from the spec: the terminal status of a run in the Run
    Coordinator's state machine.  Partial when at least one source
    finished and at least one other exhausted its retries; otherwise
    failed when no source produced an accepted record, and succeeded when
    one did. *)
Definition terminalStatus (cfg : Config) (results : list SourceResult) : RunStatus :=
  if existsb sourceFailed results && existsb (λ r, negb (sourceFailed r)) results
  then partial
  else match acceptedRecords cfg results with
       | [] => failed
       | _ :: _ => succeeded
       end.

Definition rejections (outcomes : list ValidationOutcome) : list RunError :=
  omap (λ o, if decide (status o = rejected)
             then Some (ValidationRejection (record o) (violations o)) else None) outcomes.

Definition conflictsOf (canon : gmap EntityKey CanonicalRecord) : list RunError :=
  kc ← map_to_list canon;
  (λ fc, ReconciliationConflict kc.1 fc.1) <$>
    filter (λ fc, cf_conflicted fc.2 = true) (map_to_list (cr_fields kc.2)).

(** Modelled from the spec: the canonical records a run computes from
    the results of its sources.  Every fetched record is validated, the
    rejected ones are dropped and the rest is reconciled. *)
Definition canonicalOf (cfg : Config) (results : list SourceResult)
  : gmap EntityKey CanonicalRecord :=
  reconcile cfg (reconcilerInput cfg (results ≫= sr_records)).

(** Modelled from the spec: the creation of a CollectionRun by the Run
    Coordinator, in status pending. *)
Definition createRun (runId : nat) (sc : Scope) (t0 : Z) (srcs : list SourceId) : CollectionRun :=
  {| run_id := runId; run_scope := sc; started := t0; ended := t0;
     per_source := (λ s, (s, src_pending)) <$> srcs;
     errors := []; run_status := pending; outcome := None |}.

(** Modelled from the spec: the transition pending to running. *)
Definition beginRun (run : CollectionRun) : CollectionRun :=
  {| run_id := run_id run; run_scope := run_scope run; started := started run;
     ended := ended run;
     per_source := (λ p, (p.1, src_running)) <$> per_source run;
     errors := errors run; run_status := running; outcome := None |}.

(** Modelled from the spec: the end of a run in the Run Coordinator.  All
    sources have reached a terminal status; the run becomes failed,
    partial or succeeded; a commit is made unless the run failed; the run
    is recorded in either case. *)
Definition finishRun (cfg : Config) (run : CollectionRun) (results : list SourceResult)
    (st : Store) : Store * CollectionRun :=
  let canon := canonicalOf cfg results in
  let st_ := terminalStatus cfg results in
  let errs := ((results ≫= sr_errors)
               ++ rejections (validate cfg <$> (results ≫= sr_records))
               ++ (if decide (st_ = failed) then [] else conflictsOf canon))%list in
  let final := {|
    run_id := run_id run; run_scope := run_scope run; started := started run;
    ended := foldr Z.max (started run) (sr_end <$> results);
    per_source := (λ r, (sr_source r, sr_status r)) <$> results;
    errors := errs; run_status := st_;
    outcome := Some (if decide (st_ = failed) then aborted else committed) |} in
  (recordRun final (if decide (st_ = failed) then st else commit (run_id run) canon st), final).

(** Modelled from the spec: one collection run of the Run Coordinator
    against fixed source responses [world], started at time [t0] on store
    [st]. *)
Definition executeRun (cfg : Config) (world : SourceId → Feed) (runId : nat) (t0 : Z)
    (sc : Scope) (st : Store) : Store * CollectionRun :=
  let srcs := selectedSources cfg sc in
  let run := beginRun (createRun runId sc t0 srcs) in
  finishRun cfg run (fetchSource cfg world t0 <$> srcs) st.


(** ** A sample configuration and sample source responses *)

Definition exampleConfig : Config := {|
  sources := [
    {| id := nba_com; precedence := 1; maxRequestsPerMinute := 30; minDelay := 2 |};
    {| id := basketball_reference; precedence := 2; maxRequestsPerMinute := 30; minDelay := 2 |};
    {| id := kaggle; precedence := 3; maxRequestsPerMinute := 30; minDelay := 2 |} ];
  validation_rules := VALIDATION_RULES;
  max_invalid_fraction := num 0.5;
  tolerance := λ _, num 0.5;
  run_timeout := 3600;
  retry := RETRY_CONFIG;
  backoff_cap := None;
  normalize_name := λ s, s;
  resolve_team := λ s, s;
  confidence_score := λ _ conflict, if conflict then num 0.5 else num 1 |}.

Definition jokic (ppg_ : Q) : Payload := {|
  p_name := "Nikola Jokic"; p_team := "DEN"; p_season := "2024";
  p_fields := list_to_map [
    ("player_name", VStr "Nikola Jokic"); ("team", VStr "DEN");
    ("ppg", VNum (num ppg_)); ("rpg", VNum (num 12.8)); ("apg", VNum (num 8.9)) ] |}.

(** A payload without the required field [team] and with 70 points per
    game. *)
Definition noTeam : Payload := {|
  p_name := "Nikola Jokic"; p_team := "DEN"; p_season := "2024";
  p_fields := list_to_map [
    ("player_name", VStr "Nikola Jokic");
    ("ppg", VNum (num 70)); ("rpg", VNum (num 12.8)); ("apg", VNum (num 8.9)) ] |}.

(** A payload whose three required statistics are all out of range. *)
Definition implausible : Payload := {|
  p_name := "Nikola Jokic"; p_team := "DEN"; p_season := "2024";
  p_fields := list_to_map [
    ("player_name", VStr "Nikola Jokic"); ("team", VStr "DEN");
    ("ppg", VNum (num 70)); ("rpg", VNum (num 40)); ("apg", VNum (num 30)) ] |}.

Definition always (r : Response) : Feed :=
  {| feed_units := 1; respond := λ _ _, r |}.

(** The official site answers on the fourth request, the reference site
    at once, the curated dataset never. *)
Definition exampleWorld (s : SourceId) : Feed :=
  match s with
  | nba_com =>
    {| feed_units := 1;
       respond := λ _ n, if (n <? 3)%nat then Failure transient else Fetched [jokic 28.2] |}
  | basketball_reference => always (Fetched [jokic 27.9])
  | kaggle => always (Failure rate_limited)
  end.

Definition deadWorld (s : SourceId) : Feed := always (Failure transient).




Definition wholeSeason : Scope :=
  {| scope_season := "2024"; scope_entities := None; scope_sources := None |}.

Definition emptyStore : Store := {| versions := []; runs := [] |}.

End Pipeline.

(* ===================================================================== *)
(** * Header and routes ([src/components/layout/Header.js], [src/App.js]) *)
(* ===================================================================== *)

Module Header.

Record NavItem := { path : string; label : string; icon : string }.

Definition navItems : list NavItem := [
  {| path := "/"; label := "Home"; icon := "fas fa-home" |};
  {| path := "/dashboard"; label := "Dashboard"; icon := "fas fa-chart-line" |};
  {| path := "/player-analysis"; label := "Player Analysis"; icon := "fas fa-user-friends" |};
  {| path := "/data-collection"; label := "Data Collection"; icon := "fas fa-database" |};
  {| path := "/about"; label := "About"; icon := "fas fa-info-circle" |} ].

(** The [useState] cell of the header and [useLocation().pathname]. *)
Record State := { isMobileMenuOpen : bool; pathname : string }.

(** [location.pathname === path] *)
Definition isActive (st : State) (path_ : string) : bool :=
  bool_decide (pathname st = path_).

Record NavLink := { to : string; className : string; linkIcon : string; linkLabel : string }.

Record View := { navClass : string; links : list NavLink; buttonClass : string }.

Definition renderLink (st : State) (item : NavItem) : NavLink :=
  {| to := path item;
     className := "nav-link " +:+ (if isActive st (path item) then "active" else "");
     linkIcon := icon item;
     linkLabel := label item |}.

Definition render (st : State) : View :=
  {| navClass := "nav " +:+ (if isMobileMenuOpen st then "nav-open" else "");
     links := renderLink st <$> navItems;
     buttonClass := "mobile-menu-btn " +:+ (if isMobileMenuOpen st then "active" else "") |}.

(** The links a view marks as active. *)
Definition activeLinks (v : View) : list NavLink :=
  filter (λ l, className l = "nav-link active") (links v).

(** What can happen to the header: a press on the menu button, a click
    on the i-th navigation link (its [onClick] closes the menu and the
    link navigates to [item.path]), a click on the logo (a link to the
    root without [onClick]), and a change of location from elsewhere. *)
Inductive Event :=
| ToggleMenu
| ClickNavLink (i : nat)
| ClickLogo
| LocationChanged (p : string).

Definition step (st : State) (e : Event) : State :=
  match e with
  | ToggleMenu => {| isMobileMenuOpen := negb (isMobileMenuOpen st); pathname := pathname st |}
  | ClickNavLink i =>
    match navItems !! i with
    | Some item => {| isMobileMenuOpen := false; pathname := path item |}
    | None => st
    end
  | ClickLogo => {| isMobileMenuOpen := isMobileMenuOpen st; pathname := "/" |}
  | LocationChanged p => {| isMobileMenuOpen := isMobileMenuOpen st; pathname := p |}
  end.

Definition run (st : State) (evs : list Event) : State := foldl step st evs.

Definition isToggle (e : Event) : bool :=
  match e with ToggleMenu => true | _ => false end.

Definition isNavClick (e : Event) : bool :=
  match e with ClickNavLink _ => true | _ => false end.

(** The presses on the menu button among some events. *)
Definition toggles (evs : list Event) : nat := length (List.filter isToggle evs).

End Header.

Module App.

Inductive Page := HomePage | DashboardPage | PlayerAnalysisPage | DataCollectionPage | AboutPage.

(** The [<Route>] elements of [App] (lines 28-34), path and element. *)
Definition routes : list (string * Page) := [
  ("/", HomePage);
  ("/dashboard", DashboardPage);
  ("/player-analysis", PlayerAnalysisPage);
  ("/data-collection", DataCollectionPage);
  ("/about", AboutPage) ].

(** The targets of the [<Link>] elements of the footer (lines 31-34)
    and of the home page (hero and call-to-action buttons). *)
Definition footerLinks : list string :=
  ["/dashboard"; "/player-analysis"; "/data-collection"; "/about"].

Definition homeLinks : list string :=
  ["/dashboard"; "/player-analysis"; "/dashboard"; "/about"].

(** Every internal link of the layout and of the home page. *)
Definition internalLinks : list string :=
  "/" :: (Header.path <$> Header.navItems) ++ footerLinks ++ homeLinks.

(** What happens to the header while a visitor moves through the site
    by its links only: a location change from outside the header is a
    click on a link of the footer or of the home page. *)
Definition viaLinks (e : Header.Event) : Prop :=
  match e with
  | Header.LocationChanged p => p ∈ footerLinks ++ homeLinks
  | _ => True
  end.

End App.

(* ===================================================================== *)
(** * Player analysis page (the [PlayerAnalysis] component)               *)
(* ===================================================================== *)

Module PlayerAnalysis.

(** A decimal literal of the mock data as an exact rational. *)
Definition dec (q : Q) : Qc := Q2Qc q.

Record RadarPoint := { metric : string; value : Z }.

(** [stats] is an object literal; it is kept as the list of its entries
    in the order [Object.entries] yields them. *)
Record Player := {
  name : string;
  team : string;
  position : string;
  stats : list (string * Qc);
  radarData : list RadarPoint }.

Record StrengthCategory := { category : string; count : Z; percentage : Qc }.

Record PlayerData := {
  players : list Player;
  strengthCategories : list StrengthCategory }.

(** The three entries of [players] in the object the query function
    returns (lines 250-328). *)
Definition jokic : Player :=
  {| name := "Nikola Jokić"; team := "DEN"; position := "C";
     stats := [("ppg", dec 28.2); ("rpg", dec 12.8); ("apg", dec 8.9); ("spg", dec 1.2);
               ("bpg", dec 0.9); ("efg", dec 0.632); ("ts", dec 0.701); ("per", dec 31.2);
               ("ws", dec 12.8); ("vorp", dec 8.9)];
     radarData := [
       {| metric := "Scoring"; value := 85 |}; {| metric := "Rebounding"; value := 90 |};
       {| metric := "Playmaking"; value := 95 |}; {| metric := "Defense"; value := 70 |};
       {| metric := "Efficiency"; value := 95 |}; {| metric := "Impact"; value := 95 |} ] |}.

Definition embiid : Player :=
  {| name := "Joel Embiid"; team := "PHI"; position := "C";
     stats := [("ppg", dec 35.1); ("rpg", dec 11.1); ("apg", dec 5.9); ("spg", dec 1.0);
               ("bpg", dec 1.7); ("efg", dec 0.598); ("ts", dec 0.665); ("per", dec 33.1);
               ("ws", dec 11.2); ("vorp", dec 7.8)];
     radarData := [
       {| metric := "Scoring"; value := 95 |}; {| metric := "Rebounding"; value := 85 |};
       {| metric := "Playmaking"; value := 75 |}; {| metric := "Defense"; value := 90 |};
       {| metric := "Efficiency"; value := 85 |}; {| metric := "Impact"; value := 90 |} ] |}.

Definition doncic : Player :=
  {| name := "Luka Dončić"; team := "DAL"; position := "PG";
     stats := [("ppg", dec 33.9); ("rpg", dec 8.2); ("apg", dec 9.8); ("spg", dec 1.4);
               ("bpg", dec 0.5); ("efg", dec 0.587); ("ts", dec 0.623); ("per", dec 28.5);
               ("ws", dec 10.1); ("vorp", dec 6.9)];
     radarData := [
       {| metric := "Scoring"; value := 90 |}; {| metric := "Rebounding"; value := 75 |};
       {| metric := "Playmaking"; value := 90 |}; {| metric := "Defense"; value := 60 |};
       {| metric := "Efficiency"; value := 80 |}; {| metric := "Impact"; value := 85 |} ] |}.

(** The object returned by the query function. *)
Definition mockData : PlayerData := {|
  players := [jokic; embiid; doncic];
  strengthCategories := [
    {| category := "Elite"; count := 15; percentage := dec 3.3 |};
    {| category := "All-Star"; count := 45; percentage := dec 10.0 |};
    {| category := "Starter"; count := 150; percentage := dec 33.3 |};
    {| category := "Role Player"; count := 180; percentage := dec 40.0 |};
    {| category := "Bench"; count := 60; percentage := dec 13.3 |} ]
|}.

Record AnalysisType := { key : string; label : string; icon : string }.

Definition analysisTypes : list AnalysisType := [
  {| key := "comparison"; label := "Player Comparison"; icon := "fas fa-balance-scale" |};
  {| key := "strength"; label := "Strength Analysis"; icon := "fas fa-chart-line" |};
  {| key := "trends"; label := "Performance Trends"; icon := "fas fa-trending-up" |};
  {| key := "insights"; label := "Advanced Insights"; icon := "fas fa-lightbulb" |} ].

(** The three [useState] cells and react-query's cache. *)
Record State := {
  selectedPlayer1 : string;
  selectedPlayer2 : string;
  analysisType : string;
  queryCache : gmap string PlayerData }.

Definition initialState : State :=
  {| selectedPlayer1 := "Nikola Jokić"; selectedPlayer2 := "Joel Embiid";
     analysisType := "comparison"; queryCache := ∅ |}.

(** [playerData.players.find(p => p.name === selected)]; [None] is
    [undefined]. *)
Definition findPlayer (ps : list Player) (selected : string) : option Player :=
  List.find (λ p, bool_decide (name p = selected)) ps.

(** [player.stats[stat]]; [None] is [undefined]. *)
Definition statOf (p : Player) (stat : string) : option Qc :=
  snd <$> List.find (λ e, bool_decide (e.1 = stat)) (stats p).

Definition upperAscii (a : Ascii.ascii) : Ascii.ascii :=
  let n := Ascii.nat_of_ascii a in
  if (97 <=? n)%nat && (n <=? 122)%nat then Ascii.ascii_of_nat (n - 32) else a.

(** [stat.toUpperCase()] on names made of ASCII characters, which the
    names of the statistics are. *)
Fixpoint toUpperCase (s : string) : string :=
  match s with
  | String.EmptyString => String.EmptyString
  | String.String a rest => String.String (upperAscii a) (toUpperCase rest)
  end.

(** [difference > 0]; [None] stands for [NaN], which is not greater
    than anything. *)
Definition isPositive (difference_ : option Qc) : bool :=
  match difference_ with
  | Some d => bool_decide (0 < d)%Qc
  | None => false
  end.

(** One [<tr>] of the comparison table.  The numbers handed to
    [toFixed(1)] are kept, not their decimal text. *)
Record StatRow := {
  row_key : string;
  cell_stat : string;
  cell_value1 : Qc;
  cell_value2 : option Qc;
  difference : option Qc;
  cell_class : string;
  cell_sign : string }.

(** The body of the [map] over [Object.entries(player1.stats)]. *)
Definition comparisonRow (player2 : Player) (entry : string * Qc) : StatRow :=
  let player2Value := statOf player2 entry.1 in
  let difference_ := (λ v2, entry.2 - v2)%Qc <$> player2Value in
  {| row_key := entry.1;
     cell_stat := toUpperCase entry.1;
     cell_value1 := entry.2;
     cell_value2 := player2Value;
     difference := difference_;
     cell_class := if isPositive difference_ then "positive" else "negative";
     cell_sign := if isPositive difference_ then "+" else "" |}.

Definition comparisonRows (player1 player2 : Player) : list StatRow :=
  comparisonRow player2 <$> stats player1.

Record RadarSeries := { seriesName : string; dataKey : string; stroke : string }.

Record RadarChart := { chartData : list RadarPoint; series : list RadarSeries }.

(** What a series draws: for each point of the chart's data the field
    its [dataKey] names. *)
Definition plotted (c : RadarChart) (s : RadarSeries) : list Z :=
  omap (λ pt, if decide (dataKey s = "value") then Some (value pt) else None) (chartData c).

Definition radarChart (player1 player2 : Player) : RadarChart :=
  {| chartData := radarData player1;
     series := [
       {| seriesName := name player1; dataKey := "value"; stroke := "#3b82f6" |};
       {| seriesName := name player2; dataKey := "value"; stroke := "#ef4444" |} ] |}.

Record TypeButton := { tb_key : string; tb_class : string; tb_icon : string; tb_label : string }.

Record SelectOption := { opt_value : string; opt_text : string }.

Record PlayerSelect := { sel_value : string; sel_options : list SelectOption }.

Record CategoryCard := {
  card_key : string; card_percentage : Qc; card_count : Z; bar_width : Qc }.

Inductive Panel :=
| ComparisonPanel (chart : RadarChart) (header1 header2 : string) (rows : list StatRow)
| StrengthPanel (bars : list StrengthCategory) (cards : list CategoryCard).

Inductive View :=
| LoadingView
| LoadedView (buttons : list TypeButton) (select1 select2 : PlayerSelect)
             (panel : option Panel)
| TypeError.

Definition renderButton (st : State) (type : AnalysisType) : TypeButton :=
  {| tb_key := key type;
     tb_class := "type-btn " +:+ (if bool_decide (analysisType st = key type) then "active" else "");
     tb_icon := icon type;
     tb_label := label type |}.

Definition renderOption (player : Player) : SelectOption :=
  {| opt_value := name player;
     opt_text := name player +:+ " (" +:+ team player +:+ ")" |}.

Definition renderCard (c : StrengthCategory) : CategoryCard :=
  {| card_key := category c; card_percentage := percentage c;
     card_count := count c; bar_width := percentage c |}.

(** The component body.  While the query loads the spinner is returned.
    Afterwards both players are looked up; the comparison block reads
    [player1.radarData], [player1.name], [player2.name] and the stats,
    which throws a TypeError when a lookup gave [undefined]; the strength
    block does not touch the two players; for the other analysis types
    no block is rendered. *)
Definition render (st : State) : View :=
  match queryCache st !! "playerData" with
  | None => LoadingView
  | Some playerData =>
    let player1 := findPlayer (players playerData) (selectedPlayer1 st) in
    let player2 := findPlayer (players playerData) (selectedPlayer2 st) in
    let buttons := renderButton st <$> analysisTypes in
    let select1 := {| sel_value := selectedPlayer1 st;
                      sel_options := renderOption <$> players playerData |} in
    let select2 := {| sel_value := selectedPlayer2 st;
                      sel_options := renderOption <$> players playerData |} in
    if bool_decide (analysisType st = "comparison") then
      match player1, player2 with
      | Some p1, Some p2 =>
        LoadedView buttons select1 select2
          (Some (ComparisonPanel (radarChart p1 p2) (name p1) (name p2) (comparisonRows p1 p2)))
      | _, _ => TypeError
      end
    else if bool_decide (analysisType st = "strength") then
      LoadedView buttons select1 select2
        (Some (StrengthPanel (strengthCategories playerData)
                             (renderCard <$> strengthCategories playerData)))
    else LoadedView buttons select1 select2 None
  end.

Inductive Event :=
| SelectPlayer1 (v : string)     (* onChange of the first select *)
| SelectPlayer2 (v : string)     (* onChange of the second select *)
| ClickType (k : string)         (* onClick of an analysis-type button *)
| QuerySettled.                  (* the query function's promise resolved *)

Definition step (st : State) (e : Event) : State :=
  match e with
  | SelectPlayer1 v =>
    {| selectedPlayer1 := v; selectedPlayer2 := selectedPlayer2 st;
       analysisType := analysisType st; queryCache := queryCache st |}
  | SelectPlayer2 v =>
    {| selectedPlayer1 := selectedPlayer1 st; selectedPlayer2 := v;
       analysisType := analysisType st; queryCache := queryCache st |}
  | ClickType k =>
    {| selectedPlayer1 := selectedPlayer1 st; selectedPlayer2 := selectedPlayer2 st;
       analysisType := k; queryCache := queryCache st |}
  | QuerySettled =>
    {| selectedPlayer1 := selectedPlayer1 st; selectedPlayer2 := selectedPlayer2 st;
       analysisType := analysisType st;
       queryCache := <["playerData" := mockData]> (queryCache st) |}
  end.

Definition run (st : State) (evs : list Event) : State := foldl step st evs.

(** The events a user of the page can produce: a select delivers the
    value of one of its options, a button the key of its type. *)
Definition userEvent (e : Event) : Prop :=
  match e with
  | SelectPlayer1 v | SelectPlayer2 v => v ∈ name <$> players mockData
  | ClickType k => k ∈ key <$> analysisTypes
  | QuerySettled => True
  end.

(** The values of the options of the player selects. *)
Definition names (d : PlayerData) : list string := name <$> players d.

(** Both player selects show one of their options and the data, once
    loaded, is the mock data. *)
Definition selectionsListed (st : State) : Prop :=
  selectedPlayer1 st ∈ names mockData ∧
  selectedPlayer2 st ∈ names mockData ∧
  analysisType st ∈ key <$> analysisTypes ∧
  ∀ d, queryCache st !! "playerData" = Some d → d = mockData.

(** The panel a view shows below the selects. *)
Definition panelOf (v : View) : option Panel :=
  match v with
  | LoadedView _ _ _ panel => panel
  | _ => None
  end.

(** The buttons a view marks as active. *)
Definition activeButtons (v : View) : list TypeButton :=
  match v with
  | LoadedView buttons _ _ _ => filter (λ b, tb_class b = "type-btn active") buttons
  | _ => []
  end.

End PlayerAnalysis.

(* ===================================================================== *)
(** * Theorems: the dashboard                                             *)
(* ===================================================================== *)

Section DashboardFacts.
Import Dashboard.

Lemma dashboardQuery_key metric season_ : (dashboardQuery metric season_).1 = "dashboardData".
Proof. reflexivity. Qed.

Lemma render_loaded st d :
  queryCache st !! "dashboardData" = Some d →
  ∃ v, render st = LoadedView v ∧
       chartData (topPlayersChart v) = topPlayers d ∧
       chartData (seasonTrends v) = seasonStats d ∧
       chartData (positionPie v) = positionDistribution d ∧
       chartData (teamWinRates v) = teamPerformance d ∧
       playersTable v = imap renderRow (topPlayers d).
Proof.
  intros Hd. unfold render, useQuery. rewrite dashboardQuery_key, Hd.
  eexists. split; [reflexivity|]. simpl. auto.
Qed.

Lemma render_loading st :
  queryCache st !! "dashboardData" = None → render st = LoadingView.
Proof.
  intros Hd. unfold render, useQuery. by rewrite dashboardQuery_key, Hd.
Qed.

(** Apart from the selector itself nothing rendered depends on the
    selected season. *)
Lemma seasonBlind_render s1 s2 :
  sameUpToSeason s1 s2 → seasonBlind (render s1) = seasonBlind (render s2).
Proof.
  intros [Hm Hc]. unfold render, useQuery. rewrite !dashboardQuery_key, Hc, Hm.
  by destruct (queryCache s2 !! "dashboardData").
Qed.

(** What is shown of the dataset depends on the query cache alone. *)
Lemma renderedData_cache s1 s2 :
  queryCache s1 = queryCache s2 →
  renderedData (render s1) = renderedData (render s2).
Proof.
  intros Hc.
  destruct (queryCache s1 !! "dashboardData") as [d|] eqn:Hd.
  - destruct (render_loaded s1 d Hd) as (v1 & -> & E1).
    rewrite Hc in Hd.
    destruct (render_loaded s2 d Hd) as (v2 & -> & E2).
    simpl. destruct E1 as (-> & -> & -> & -> & ->), E2 as (-> & -> & -> & -> & ->).
    reflexivity.
  - rewrite (render_loading s1 Hd). rewrite Hc in Hd. by rewrite (render_loading s2 Hd).
Qed.

Lemma step_sameUpToSeason s1 s2 e1 e2 :
  sameUpToSeason s1 s2 → seasonVariant e1 e2 →
  sameUpToSeason (step s1 e1) (step s2 e2).
Proof.
  intros [Hm Hc] Hv. destruct Hv as [[v|v|]|v1 v2]; split; simpl; congruence.
Qed.

Lemma run_sameUpToSeason evs1 evs2 :
  Forall2 seasonVariant evs1 evs2 →
  ∀ s1 s2, sameUpToSeason s1 s2 → sameUpToSeason (run s1 evs1) (run s2 evs2).
Proof.
  induction 1 as [|e1 e2 evs1 evs2 He _ IH]; intros s1 s2 Hs; [exact Hs|].
  simpl. apply IH. by apply step_sameUpToSeason.
Qed.

(** C8.  The displayed dataset is independent of the selected season:
    the query (key and resolved value) is the same for every two values
    of the season selector, and two runs of the page whose events differ
    at most in the seasons that are selected, started from states that
    differ at most in the selected season, render the same topPlayers,
    seasonStats, positionDistribution and teamPerformance data and the
    same table rows; indeed the two views differ in nothing but the
    current value of the season selector. *)
Theorem C8_season_noninterference (evs1 evs2 : list Event) (s1 s2 : State) :
  Forall2 seasonVariant evs1 evs2 →
  sameUpToSeason s1 s2 →
  (∀ metric a b, dashboardQuery metric a = dashboardQuery metric b) ∧
  renderedData (render (run s1 evs1)) = renderedData (render (run s2 evs2)) ∧
  seasonBlind (render (run s1 evs1)) = seasonBlind (render (run s2 evs2)).
Proof.
  intros Hevs Hs. split; [reflexivity|].
  pose proof (run_sameUpToSeason evs1 evs2 Hevs s1 s2 Hs) as Hrun.
  split; [|by apply seasonBlind_render].
  apply renderedData_cache. by destruct Hrun.
Qed.

Lemma C8_witness :
  renderedData (render (run initialState [QuerySettled; ChangeSeason "2021"])) =
  renderedData (render (run initialState [QuerySettled; ChangeSeason "2023"])).
Proof.
  apply (C8_season_noninterference
           [QuerySettled; ChangeSeason "2021"] [QuerySettled; ChangeSeason "2023"]
           initialState initialState).
  - repeat constructor.
  - split; reflexivity.
Defined.

Lemma tableOf_render st :
  tableOf (render st) = imap renderRow (loadedPlayers st).
Proof.
  unfold loadedPlayers.
  destruct (queryCache st !! "dashboardData") as [d|] eqn:Hd.
  - destruct (render_loaded st d Hd) as (v & Hr & _ & _ & _ & _ & Ht).
    rewrite Hr. exact Ht.
  - by rewrite (render_loading st Hd).
Qed.

(** C10.  The Top Players table keeps the order of the topPlayers array:
    whatever metric is selected, row i of the table is built from the
    i-th element of the array and its rank is i + 1; selecting a metric
    leaves the table as it was.  With the data of the repository the
    rows are Jokić, Embiid, Dončić, Antetokounmpo, Durant for every
    metric. *)
Theorem C10_table_keeps_array_order (st : State) (metric : string) (i : nat) :
  tableOf (render (step st (ChangeMetric metric))) !! i
    = renderRow i <$> loadedPlayers st !! i
  ∧ (∀ row, tableOf (render (step st (ChangeMetric metric))) !! i = Some row →
            rank row = i + 1)
  ∧ tableOf (render (step st (ChangeMetric metric))) = tableOf (render st)
  ∧ cell_name <$> tableOf (render (step (step initialState QuerySettled) (ChangeMetric metric)))
    = ["Nikola Jokić"; "Joel Embiid"; "Luka Dončić"; "Giannis Antetokounmpo"; "Kevin Durant"].
Proof.
  assert (Hrow : tableOf (render (step st (ChangeMetric metric))) !! i
                 = renderRow i <$> loadedPlayers st !! i).
  { rewrite tableOf_render. unfold loadedPlayers. simpl. apply list_lookup_imap. }
  split; [exact Hrow|]. split; [|split].
  - intros row. rewrite Hrow. destruct (loadedPlayers st !! i); simpl; [|done].
    by intros [= <-].
  - by rewrite !tableOf_render.
  - rewrite tableOf_render. reflexivity.
Qed.

End DashboardFacts.

(* ===================================================================== *)
(** * Theorems: the data collection page                                  *)
(* ===================================================================== *)

Section DataCollectionFacts.
Import DataCollection.

Lemma handler_start w :
  handleStartCollection w = (started w, Await (timeoutPromise 3000) afterTimer).
Proof. reflexivity. Qed.

Lemma handler_resume w :
  afterTimer (Fulfilled VUndefined) w = (completed w, Ret VUndefined).
Proof. reflexivity. Qed.

Lemma inv_initial : Inv initialPage.
Proof. split; simpl; try done; try lia. Qed.

Lemma toast_insert_noerr (ts : gmap string Toast) t0 :
  kind t0 ≠ Error →
  (∀ i t, ts !! i = Some t → kind t ≠ Error) →
  ∀ i t, <["collection" := t0]> ts !! i = Some t → kind t ≠ Error.
Proof.
  intros H0 H i t. destruct (decide ("collection" = i)) as [<-|Hne].
  - rewrite lookup_insert_eq. by intros [= <-].
  - rewrite lookup_insert_ne by done. apply H.
Qed.

Lemma inv_click pg : Inv pg → Inv (step pg ClickStart).
Proof.
  intros HI. pose proof HI as [Ht Hs Hf He Hfin Hsucc].
  unfold step. cbn [renderButton disabled].
  destruct (isCollecting (world pg)) eqn:Hc; [exact HI|].
  assert (Hnil : tasks pg = []).
  { symmetry in Hf. apply bool_decide_eq_false in Hf. by apply dec_stable. }
  rewrite handler_start. simpl. rewrite Hnil. split; simpl.
  - repeat constructor. simpl. lia.
  - lia.
  - done.
  - by apply toast_insert_noerr.
  - done.
  - done.
Qed.

Lemma inv_timer pg i : Inv pg → Inv (step pg (TimerFires i)).
Proof.
  intros HI. pose proof HI as [Ht Hs Hf He Hfin Hsucc]. unfold step.
  destruct (tasks pg !! i) as [t|] eqn:Hi; [|exact HI].
  destruct (bool_decide (due t ≤ now pg)%Z) eqn:Hdue; [|exact HI].
  destruct (tasks pg) as [|t' [|? ?]] eqn:Htasks; simpl in Hs; [done| |lia].
  destruct i as [|i]; [|done]. simpl in Hi. injection Hi as ->.
  apply Forall_singleton in Ht as (Hset & Hres & _).
  rewrite Hset, Hres, handler_resume. simpl. split; simpl.
  - constructor.
  - lia.
  - done.
  - by apply toast_insert_noerr.
  - by constructor.
  - intros _ _. by rewrite lookup_insert_eq.
Qed.

Lemma inv_step pg e : Inv pg → Inv (step pg e).
Proof.
  destruct e as [|v|ms|i].
  - apply inv_click.
  - intros [Ht Hs Hf He Hfin Hsucc]. by split.
  - intros [Ht Hs Hf He Hfin Hsucc]. split; simpl; try done.
    eapply Forall_impl; [exact Ht|]. intros t (? & ? & ?). repeat split; try done.
    simpl. lia.
  - apply inv_timer.
Qed.

Lemma inv_run evs : ∀ pg, Inv pg → Inv (run pg evs).
Proof.
  induction evs as [|e evs IH]; intros pg HI; [exact HI|].
  simpl. apply IH. by apply inv_step.
Qed.

(** A waiting invocation finishes once its three seconds have passed. *)
Lemma inv_finishes pg :
  Inv pg → tasks pg ≠ [] →
  run pg [Advance 3000; TimerFires 0] =
    {| world := completed (world pg); now := (now pg + 3000)%Z; tasks := [];
       finished := Fulfilled VUndefined :: finished pg |}.
Proof.
  intros [Ht Hs Hf He Hfin Hsucc] Hne.
  destruct (tasks pg) as [|t [|? ?]] eqn:Htasks; simpl in Hs; [done| |lia].
  apply Forall_singleton in Ht as (Hset & Hres & Hdue).
  unfold run. simpl. rewrite Htasks. simpl.
  rewrite bool_decide_eq_true_2 by lia.
  by rewrite Hset, Hres, handler_resume.
Qed.

(** C9.  In every state the page can reach: no error toast is on screen
    (the catch branch never ran) and every finished invocation of the
    handler completed normally; once an invocation has finished and none
    is waiting, the toast shown is the success toast; [isCollecting] is
    true exactly while an invocation waits on its timer, so it is false
    again whenever the handler has finished; at most one invocation
    waits; while [isCollecting] is true the button is disabled and a
    click starts nothing; and a waiting invocation does finish: when its
    three seconds have passed and the timer fires it reports success and
    resets the flag. *)
Theorem C9_collection_handler_safety (evs : list Event) :
  let pg := run initialPage evs in
  (∀ i t, toasts (world pg) !! i = Some t → kind t ≠ Error) ∧
  Forall (λ s, s = Fulfilled VUndefined) (finished pg) ∧
  (tasks pg = [] → finished pg ≠ [] →
   toasts (world pg) !! "collection" = Some successToast) ∧
  (isCollecting (world pg) = true ↔ tasks pg ≠ []) ∧
  (length (tasks pg) ≤ 1)%nat ∧
  (isCollecting (world pg) = true →
   disabled (renderButton (world pg)) = true ∧ step pg ClickStart = pg) ∧
  (tasks pg ≠ [] →
   let pg' := run pg [Advance 3000; TimerFires 0] in
   tasks pg' = [] ∧
   isCollecting (world pg') = false ∧
   toasts (world pg') !! "collection" = Some successToast ∧
   finished pg' = Fulfilled VUndefined :: finished pg).
Proof.
  intros pg. pose proof (inv_run evs initialPage inv_initial) as HI. fold pg in HI.
  pose proof HI as [Ht Hs Hf He Hfin Hsucc].
  split; [exact He|]. split; [exact Hfin|]. split; [exact Hsucc|].
  split.
  { rewrite Hf. split; intros Hx.
    - by apply bool_decide_eq_true in Hx.
    - by apply bool_decide_eq_true. }
  split; [exact Hs|].
  split.
  { intros Hc. split; [exact Hc|]. unfold step. cbn [renderButton disabled].
    by rewrite Hc. }
  intros Hne pg'. unfold pg'. rewrite (inv_finishes pg HI Hne). simpl.
  split_and!; try done. by rewrite lookup_insert_eq.
Qed.

(** C2, as amended.  In every state the page can reach, an invocation of
    the start handler does not throw: it returns at once with a pending
    promise (no value, hence no run id, is handed back), the rest of its
    body runs when the timer fires and fulfils that promise with
    [undefined] after showing the success toast, and no promise returned
    by a finished invocation was rejected.  [undefined] is not a run id. *)
Theorem C2_start_handler_never_throws (evs : list Event) :
  let pg := run initialPage evs in
  immediateValue (handleStartCollection (world pg)) = None ∧
  (∃ k, handleStartCollection (world pg)
          = (started (world pg), Await (timeoutPromise 3000) k) ∧
        ∀ w, k (outcome (timeoutPromise 3000)) w = (completed w, Ret VUndefined)) ∧
  (∀ s, s ∈ finished pg → s = Fulfilled VUndefined) ∧
  ¬ isRunId VUndefined.
Proof.
  intros pg. split; [reflexivity|]. split; [|split].
  - exists afterTimer. split; [apply handler_start|]. intros w. apply handler_resume.
  - apply Forall_forall. apply (inv_finished _ (inv_run evs initialPage inv_initial)).
  - simpl. tauto.
Qed.

(** C2 as stated fails on the first click: the handler hands no run id
    back at once, and the value its promise is fulfilled with after the
    three seconds is [undefined]. *)
Lemma C2_counterexample :
  ¬ (∃ v, immediateValue (handleStartCollection initialWorld) = Some (Fulfilled v)
          ∧ isRunId v)
  ∧ finished (run initialPage [ClickStart; Advance 3000; TimerFires 0]) = [Fulfilled VUndefined]
  ∧ ¬ isRunId VUndefined.
Proof.
  split; [|split].
  - intros (v & Hv & _). discriminate Hv.
  - reflexivity.
  - simpl. tauto.
Qed.

(** The [catch] branch of the model is live: were the awaited promise to
    reject, the error toast would be shown and the flag reset. *)
Example catch_branch_runs :
  let pg := settle initialPage []
              (collectionHandlerAround {| delay := 10; outcome := Rejected (VError "boom") |}
                 initialWorld) in
  let pg' := run pg [Advance 10; TimerFires 0] in
  kind <$> toasts (world pg') !! "collection" = Some Error ∧
  isCollecting (world pg') = false ∧
  finished pg' = [Fulfilled VUndefined].
Proof. vm_compute. auto. Qed.

End DataCollectionFacts.

(* ===================================================================== *)
(** * Theorems: the reconciler and the order of arrival                    *)
(* ===================================================================== *)

Section SortFacts.
Context {A : Type} (R : relation A) `{∀ x y, Decision (R x y)}.
Context `{!Transitive R, !Total R}.



End SortFacts.

Section KeyOrder.
Import Pipeline.
Context {A K : Type} `{Lexico K, !StrictOrder (@lexico K _), !TrichotomyT (@lexico K _)}.
Context (key : A → K).

Lemma keyLe_trans : Transitive (keyLe key).
Proof.
  intros x y z Hxy Hyz Hzx. unfold keyLe in *.
  destruct (trichotomyT lexico (key x) (key y)) as [[Hlt|Heq]|Hgt].
  - apply Hyz. by etrans.
  - apply Hyz. by rewrite <-Heq.
  - by apply Hxy.
Qed.

Lemma keyLe_total : Total (keyLe key).
Proof.
  intros x y. unfold keyLe.
  destruct (trichotomyT lexico (key x) (key y)) as [[Hlt|Heq]|Hgt].
  - left. intros Hyx. apply (irreflexivity lexico (key x)). by etrans.
  - left. rewrite Heq. apply irreflexivity, _.
  - right. intros Hxy. apply (irreflexivity lexico (key x)). by etrans.
Qed.


End KeyOrder.

Section ReconcilerOrder.
Import Pipeline.

#[local] Instance outranks_trans cfg med : Transitive (outranks cfg med).
Proof. exact (keyLe_trans (rankKey cfg med)). Qed.

#[local] Instance outranks_total cfg med : Total (outranks cfg med).
Proof. exact (keyLe_total (rankKey cfg med)). Qed.

#[local] Instance Qcle_trans_inst : Transitive Qcle.
Proof. intros x y z. apply Qcle_trans. Qed.

#[local] Instance Qcle_antisym_inst : AntiSymm (=) Qcle.
Proof. intros x y. apply Qcle_antisym. Qed.






(** The selected candidate is one of the candidates. *)
Lemma best_elem cfg cs w : best cfg cs = Some w → w ∈ cs.
Proof.
  unfold best. intros Hh.
  rewrite <-(merge_sort_Permutation (outranks cfg (median (omap numericValue cs))) cs).
  destruct (merge_sort _ cs); simplify_eq/=. left.
Qed.
















(** Every field of every canonical record carries the source and the
    value of some contribution that was grouped under the record's key. *)
Lemma reconcile_field_origin cfg all k c f cf :
  reconcileContributions cfg all !! k = Some c →
  cr_fields c !! f = Some cf →
  ∃ x, x ∈ all ∧ resolveKey cfg all x = k ∧ c_source x = cf_source cf ∧
       c_fields x !! f ≫= toCanon = Some (cf_value cf).
Proof.
  unfold reconcileContributions. rewrite map_lookup_imap.
  destruct (gset_to_gmap () _ !! k); simpl; [|done].
  intros [= <-]. simpl. rewrite map_lookup_imap.
  destruct (gset_to_gmap () _ !! f); simpl; [|done].
  unfold selectField. destruct (best cfg _) as [w|] eqn:Hb; simpl; [|done].
  intros [= <-]. simpl.
  apply best_elem in Hb. unfold candidates in Hb.
  apply list_elem_of_omap in Hb as (x & Hx & Hc).
  unfold groupOf in Hx. apply list_elem_of_filter in Hx as [Hk Hx].
  exists x. split; [done|]. split; [done|].
  unfold candidateOf in Hc.
  destruct (c_fields x !! f) as [v|]; simpl in *; [|done].
  destruct (toCanon v) as [cv|]; simpl in *; [|done].
  by injection Hc as <-.
Qed.

End ReconcilerOrder.

(* ===================================================================== *)
(** * Theorems: validator, backoff and source adapters                    *)
(* ===================================================================== *)

Section ValidatorFacts.
Import Pipeline.

Lemma missingRequired_elem rules r f :
  f ∈ missingRequired rules r ↔ f ∈ required_fields rules ∧ present r f = false.
Proof. unfold missingRequired. rewrite list_elem_of_filter. tauto. Qed.

Lemma validate_missing cfg r :
  missingRequired (validation_rules cfg) r ≠ [] → status (validate cfg r) = rejected.
Proof. unfold validate. by destruct (missingRequired _ r). Qed.

Lemma validate_record cfg r : record (validate cfg r) = r.
Proof.
  unfold validate. destruct (missingRequired _ r); [|done].
  destruct (rangeViolations _ r); [done|]. by destruct (tooManyInvalid cfg r).
Qed.

Lemma reconcilerInput_elem cfg raws o :
  o ∈ reconcilerInput cfg raws ↔ status o ≠ rejected ∧ ∃ r, r ∈ raws ∧ o = validate cfg r.
Proof.
  unfold reconcilerInput. rewrite list_elem_of_filter, list_elem_of_fmap.
  split.
  - intros (Hs & r & -> & Hr). split; [done|]. by exists r.
  - intros (Hs & r & Hr & ->). split; [done|]. by exists r.
Qed.

Lemma rangeViolations_elem rules r v :
  v ∈ rangeViolations rules r ↔
  ∃ f lo hi q, (f, (lo, hi)) ∈ numeric_ranges rules ∧ fields r !! f = Some (VNum q) ∧
               inRange lo hi q = false ∧
               v = {| v_field := f; v_rule := rule_range lo hi; v_observed := Some (VNum q) |}.
Proof.
  unfold rangeViolations. rewrite list_elem_of_omap. split.
  - intros ([f [lo hi]] & Hin & Hc). unfold checkRange in Hc. simpl in Hc.
    destruct (fields r !! f) as [[ | q | | ]|] eqn:Hf; try done.
    destruct (inRange lo hi q) eqn:Hr; [done|]. injection Hc as <-.
    by exists f, lo, hi, q.
  - intros (f & lo & hi & q & Hin & Hf & Hr & ->).
    exists (f, (lo, hi)). split; [done|]. unfold checkRange. simpl. by rewrite Hf, Hr.
Qed.

Lemma inRange_false lo hi v : (v < lo ∨ hi < v)%Qc → inRange lo hi v = false.
Proof.
  intros Hout. unfold inRange. apply andb_false_iff.
  destruct Hout as [H|H]; [left|right]; apply bool_decide_eq_false;
    by apply Qclt_not_le.
Qed.

Lemma validate_no_missing cfg r :
  missingRequired (validation_rules cfg) r = [] →
  rangeViolations (validation_rules cfg) r ≠ [] →
  validate cfg r =
    if tooManyInvalid cfg r
    then {| record := r; status := rejected;
            violations := rangeViolations (validation_rules cfg) r; substituted := ∅ |}
    else {| record := r; status := repaired;
            violations := rangeViolations (validation_rules cfg) r;
            substituted := list_to_map ((λ v, (v_field v, VNull))
                                          <$> rangeViolations (validation_rules cfg) r) |}.
Proof.
  intros Hm Hv. unfold validate. rewrite Hm.
  by destruct (rangeViolations _ r).
Qed.

Lemma substituted_lookup (vs : list Violation) g :
  (list_to_map ((λ v, (v_field v, VNull)) <$> vs) : gmap string RawValue) !! g
  = if decide (g ∈ v_field <$> vs) then Some VNull else None.
Proof.
  induction vs as [|v vs IH].
  - rewrite fmap_nil, list_to_map_nil, lookup_empty.
    rewrite decide_False; [done|]. apply not_elem_of_nil.
  - rewrite !fmap_cons, list_to_map_cons. cbn [fst snd].
    destruct (decide (v_field v = g)) as [<-|Hne].
    + rewrite lookup_insert_eq. rewrite decide_True; [done|left].
    + rewrite lookup_insert_ne by done. rewrite IH.
      destruct (decide (g ∈ v_field <$> vs)) as [Hin|Hin].
      * rewrite decide_True; [done|by right].
      * rewrite decide_False; [done|].
        intros [?|?]%elem_of_cons; [congruence|done].
Qed.

Lemma usableFields_lookup (o : ValidationOutcome) g :
  usableFields o !! g
  = match substituted o !! g with Some _ => None | None => fields (record o) !! g end.
Proof.
  unfold usableFields. rewrite lookup_difference.
  by destruct (substituted o !! g).
Qed.



End ValidatorFacts.

Section BackoffFacts.
Import Pipeline.










(** A failed source contributes no record. *)
Lemma fetchUnits_failed_records rc cap s feed units :
  ∀ used t0, sr_status (fetchUnits rc cap s feed units used t0) = src_failed →
             sr_records (fetchUnits rc cap s feed units used t0) = [].
Proof.
  induction units as [|u units IH]; intros used t0; simpl; [done|].
  destruct (fetchUnit _ _ _ _ _ _) as [ws [ps|e|]]; simpl.
  - intros Hs. by rewrite decide_True.
  - case_decide as Hs; [|done]. intros _. by apply IH.
  - done.
Qed.

(** The records of a source carry its identifier. *)
Lemma fetchUnits_records_source rc cap s feed units :
  ∀ used t0 x, x ∈ sr_records (fetchUnits rc cap s feed units used t0) → source x = s.
Proof.
  induction units as [|u units IH]; intros used t0 x; simpl; [by intros ?%elem_of_nil|].
  destruct (fetchUnit _ _ _ _ _ _) as [ws [ps|e|]]; simpl.
  - case_decide; [by intros ?%elem_of_nil|].
    intros [Hx|Hx]%elem_of_app; [|by eapply IH].
    apply list_elem_of_fmap in Hx as (p & -> & _). done.
  - apply IH.
  - by intros ?%elem_of_nil.
Qed.




End BackoffFacts.

(* ===================================================================== *)
(** * Theorems: the run coordinator and the claims on the pipeline        *)
(* ===================================================================== *)

Section CoordinatorFacts.
Import Pipeline.

Lemma existsb_sourceFailed results :
  existsb sourceFailed results = true ↔ ∃ r, r ∈ results ∧ sr_status r = src_failed.
Proof.
  rewrite existsb_exists. split.
  - intros (r & Hin & Hr). exists r. split; [by apply list_elem_of_In|].
    unfold sourceFailed in Hr. by apply bool_decide_eq_true in Hr.
  - intros (r & Hin & Hr). exists r. split; [by apply list_elem_of_In|].
    unfold sourceFailed. by apply bool_decide_eq_true.
Qed.

Lemma existsb_sourceFinished results :
  existsb (λ r, negb (sourceFailed r)) results = true ↔
  ∃ r, r ∈ results ∧ sr_status r ≠ src_failed.
Proof.
  rewrite existsb_exists. split.
  - intros (r & Hin & Hr). exists r. split; [by apply list_elem_of_In|].
    unfold sourceFailed in Hr. apply negb_true_iff in Hr. by apply bool_decide_eq_false in Hr.
  - intros (r & Hin & Hr). exists r. split; [by apply list_elem_of_In|].
    unfold sourceFailed. apply negb_true_iff. by apply bool_decide_eq_false.
Qed.

Lemma terminalStatus_partial cfg results bad good :
  bad ∈ results → sr_status bad = src_failed →
  good ∈ results → sr_status good ≠ src_failed →
  terminalStatus cfg results = partial.
Proof.
  intros Hb Hbs Hg Hgs. unfold terminalStatus.
  assert (H1 : existsb sourceFailed results = true)
    by (apply existsb_sourceFailed; by exists bad).
  assert (H2 : existsb (λ r, negb (sourceFailed r)) results = true)
    by (apply existsb_sourceFinished; by exists good).
  by rewrite H1, H2.
Qed.






Lemma no_records_of_failed (results : list SourceResult) :
  Forall (λ r, sr_status r = src_failed → sr_records r = []) results →
  results ≫= sr_records
  = filter (λ r, sr_status r ≠ src_failed) results ≫= sr_records.
Proof.
  induction 1 as [|r results Hr _ IH]; [done|].
  rewrite filter_cons, bind_cons.
  destruct (decide (sr_status r ≠ src_failed)) as [Hs|Hs].
  - by rewrite bind_cons, IH.
  - apply dec_stable in Hs. by rewrite (Hr Hs), IH.
Qed.

Lemma fetched_failed_no_records cfg world t0 srcs :
  Forall (λ r, sr_status r = src_failed → sr_records r = [])
         (fetchSource cfg world t0 <$> srcs).
Proof.
  apply Forall_fmap, Forall_forall. intros s _. simpl.
  apply fetchUnits_failed_records.
Qed.




Lemma executeRun_unfold cfg world runId t0 sc st :
  executeRun cfg world runId t0 sc st =
  finishRun cfg (beginRun (createRun runId sc t0 (selectedSources cfg sc)))
            (fetchSource cfg world t0 <$> selectedSources cfg sc) st.
Proof. reflexivity. Qed.



(** Every field of a canonical record of a run was reported by a record
    that some source of the run fetched and the Validator did not
    reject. *)
Lemma canonicalOf_origin cfg results k c f cf :
  canonicalOf cfg results !! k = Some c →
  cr_fields c !! f = Some cf →
  ∃ res r, res ∈ results ∧ r ∈ sr_records res ∧
           status (validate cfg r) ≠ rejected ∧
           source r = cf_source cf ∧
           usableFields (validate cfg r) !! f ≫= toCanon = Some (cf_value cf).
Proof.
  intros Hk Hf. unfold canonicalOf, reconcile in Hk.
  destruct (reconcile_field_origin cfg _ k c f cf Hk Hf) as (x & Hx & _ & Hsrc & Hval).
  apply list_elem_of_fmap in Hx as (o & -> & Ho).
  apply reconcilerInput_elem in Ho as (Hst & r & Hr & ->).
  apply list_elem_of_bind in Hr as (res & Hr & Hres).
  exists res, r. split; [done|]. split; [done|]. split; [done|].
  unfold contribution in Hsrc, Hval. simpl in Hsrc, Hval.
  rewrite validate_record in Hsrc. done.
Qed.





End CoordinatorFacts.

Section PipelineClaims.
Import Pipeline.






(** C5.  A run in which one source exhausts its retries and another
    finishes successfully reaches the terminal status partial and still
    commits: the store gains one version holding the canonical records
    reconciled from the records of the sources that did not fail, a
    query answers from that version, and every field of every committed
    record is tagged with a source of the run that did not fail. *)
Theorem C5_partial_run_commits (cfg : Config) (world : SourceId → Feed) (runId : nat) (t0 : Z)
    (sc : Scope) (st : Store) (bad good : SourceId) :
  bad ∈ selectedSources cfg sc →
  sr_status (fetchSource cfg world t0 bad) = src_failed →
  good ∈ selectedSources cfg sc →
  sr_status (fetchSource cfg world t0 good) = src_succeeded →
  let results := fetchSource cfg world t0 <$> selectedSources cfg sc in
  let finished_ := filter (λ r, sr_status r ≠ src_failed) results in
  let out := executeRun cfg world runId t0 sc st in
  run_status out.2 = partial ∧
  outcome out.2 = Some committed ∧
  versions out.1 = versions st ++ [(runId, canonicalOf cfg finished_)] ∧
  (∀ k, query out.1 k = match canonicalOf cfg finished_ !! k with
                        | Some c => Some c
                        | None => query st k
                        end) ∧
  (∀ k c f cf, canonicalOf cfg finished_ !! k = Some c → cr_fields c !! f = Some cf →
     cf_source cf ∈ selectedSources cfg sc ∧
     sr_status (fetchSource cfg world t0 (cf_source cf)) ≠ src_failed).
Proof.
  intros Hbad Hbs Hgood Hgs results finished_ out.
  assert (Hp : terminalStatus cfg results = partial).
  { apply (terminalStatus_partial cfg results (fetchSource cfg world t0 bad)
             (fetchSource cfg world t0 good)); try done.
    - apply list_elem_of_fmap. by exists bad.
    - apply list_elem_of_fmap. by exists good.
    - by rewrite Hgs. }
  assert (Hc : canonicalOf cfg results = canonicalOf cfg finished_).
  { unfold canonicalOf, finished_.
    by rewrite <-(no_records_of_failed results (fetched_failed_no_records cfg world t0 _)). }
  subst out. rewrite executeRun_unfold. unfold finishRun. fold results.
  rewrite Hp, Hc. simpl.
  split; [done|]. split; [done|]. split; [done|]. split.
  { intros k. unfold query, history. simpl. rewrite omap_app. simpl.
    destruct (canonicalOf cfg finished_ !! k) as [c|]; simpl.
    - by rewrite last_snoc.
    - by rewrite app_nil_r. }
  intros k c f cf Hk Hf.
  destruct (canonicalOf_origin cfg finished_ k c f cf Hk Hf)
    as (res & r & Hres & Hr & _ & Hsrc & _).
  apply list_elem_of_filter in Hres as [Hstat Hres].
  apply list_elem_of_fmap in Hres as (s & -> & Hs).
  rewrite <-Hsrc. unfold fetchSource in Hr.
  rewrite (fetchUnits_records_source _ _ _ _ _ _ _ _ Hr). done.
Qed.

Lemma C5_witness :
  run_status (executeRun exampleConfig exampleWorld 1 0 wholeSeason emptyStore).2 = partial ∧
  outcome (executeRun exampleConfig exampleWorld 1 0 wholeSeason emptyStore).2
  = Some committed.
Proof.
  assert (Hb : kaggle ∈ selectedSources exampleConfig wholeSeason)
    by (apply (bool_decide_unpack _); vm_compute; exact I).
  assert (Hg : basketball_reference ∈ selectedSources exampleConfig wholeSeason)
    by (apply (bool_decide_unpack _); vm_compute; exact I).
  assert (Hbs : sr_status (fetchSource exampleConfig exampleWorld 0 kaggle) = src_failed)
    by (vm_compute; reflexivity).
  assert (Hgs : sr_status (fetchSource exampleConfig exampleWorld 0 basketball_reference)
                = src_succeeded)
    by (vm_compute; reflexivity).
  destruct (C5_partial_run_commits exampleConfig exampleWorld 1 0 wholeSeason emptyStore
              kaggle basketball_reference Hb Hbs Hg Hgs) as (H1 & H2 & _).
  split; [exact H1|exact H2].
Defined.

(** C6.  A record with a missing required field is rejected; its
    outcome is never among what the Reconciler is handed; and every field
    of every canonical record reconciled from any batch of raw records
    stems from a record of the batch other than this one, one that was
    not rejected: the tagged source is that record's source and the
    value is the one it reports for the field. *)
Theorem C6_missing_required_rejected (cfg : Config) (r : RawRecord) (f : string) :
  f ∈ required_fields (validation_rules cfg) →
  present r f = false →
  status (validate cfg r) = rejected ∧
  (∀ raws, validate cfg r ∉ reconcilerInput cfg raws) ∧
  (∀ raws k c g cf,
     reconcile cfg (reconcilerInput cfg raws) !! k = Some c →
     cr_fields c !! g = Some cf →
     ∃ r', r' ∈ raws ∧ r' ≠ r ∧ status (validate cfg r') ≠ rejected ∧
           source r' = cf_source cf ∧
           usableFields (validate cfg r') !! g ≫= toCanon = Some (cf_value cf)).
Proof.
  intros Hreq Hmiss.
  assert (Hrej : status (validate cfg r) = rejected).
  { apply validate_missing. intros Hnil.
    assert (Hin : f ∈ missingRequired (validation_rules cfg) r)
      by (by apply missingRequired_elem).
    rewrite Hnil in Hin. by apply elem_of_nil in Hin. }
  split; [exact Hrej|]. split.
  - intros raws Hin. by apply reconcilerInput_elem in Hin as [Hst _].
  - intros raws k c g cf Hk Hg. unfold reconcile in Hk.
    destruct (reconcile_field_origin cfg _ k c g cf Hk Hg) as (x & Hx & _ & Hsrc & Hval).
    apply list_elem_of_fmap in Hx as (o & -> & Ho).
    apply reconcilerInput_elem in Ho as (Hst & r' & Hr' & ->).
    exists r'. split; [done|]. split; [by intros ->|]. split; [done|].
    unfold contribution in Hsrc, Hval. simpl in Hsrc, Hval.
    by rewrite validate_record in Hsrc.
Qed.

Lemma C6_witness :
  status (validate exampleConfig (toRaw kaggle 0 noTeam)) = rejected.
Proof.
  apply (C6_missing_required_rejected exampleConfig (toRaw kaggle 0 noTeam) "team").
  - apply (bool_decide_unpack _). vm_compute. exact I.
  - vm_compute. reflexivity.
Defined.

(** C7, as amended.  For a record that has every required field and
    holds, in a field with a range rule, a number outside the range (by
    [VALIDATION_RULES] points per game outside 0..50): if more than the
    configured fraction of the required fields are invalid the record is
    rejected; otherwise it is repaired, the field is replaced by null and
    is absent from the usable fields, every field that violates no range
    rule is usable unchanged, and the fields that are dropped are exactly
    the ones holding a number outside their range. *)
Theorem C7_out_of_range_repaired (cfg : Config) (r : RawRecord) (f : string) (lo hi v : Qc) :
  missingRequired (validation_rules cfg) r = [] →
  (f, (lo, hi)) ∈ numeric_ranges (validation_rules cfg) →
  fields r !! f = Some (VNum v) →
  (v < lo ∨ hi < v)%Qc →
  if tooManyInvalid cfg r
  then status (validate cfg r) = rejected
  else status (validate cfg r) = repaired ∧
       substituted (validate cfg r) !! f = Some VNull ∧
       usableFields (validate cfg r) !! f = None ∧
       (∀ g, g ∉ v_field <$> rangeViolations (validation_rules cfg) r →
             usableFields (validate cfg r) !! g = fields r !! g) ∧
       (∀ g, g ∈ v_field <$> rangeViolations (validation_rules cfg) r ↔
             ∃ lo' hi' q, (g, (lo', hi')) ∈ numeric_ranges (validation_rules cfg) ∧
                          fields r !! g = Some (VNum q) ∧ inRange lo' hi' q = false).
Proof.
  intros Hm Hrule Hf Hout.
  assert (Hviol : {| v_field := f; v_rule := rule_range lo hi; v_observed := Some (VNum v) |}
                  ∈ rangeViolations (validation_rules cfg) r).
  { apply rangeViolations_elem. exists f, lo, hi, v.
    split; [done|]. split; [done|]. split; [by apply inRange_false|done]. }
  assert (Hne : rangeViolations (validation_rules cfg) r ≠ []).
  { intros Hnil. rewrite Hnil in Hviol. by apply elem_of_nil in Hviol. }
  rewrite (validate_no_missing cfg r Hm Hne).
  destruct (tooManyInvalid cfg r); [done|]. simpl.
  assert (Hfin : f ∈ v_field <$> rangeViolations (validation_rules cfg) r).
  { apply list_elem_of_fmap. by eexists; split; [|exact Hviol]. }
  split; [done|]. split; [|split; [|split]].
  - rewrite substituted_lookup. by rewrite decide_True.
  - rewrite usableFields_lookup. simpl. rewrite substituted_lookup. by rewrite decide_True.
  - intros g Hg. rewrite usableFields_lookup. simpl. rewrite substituted_lookup.
    by rewrite decide_False.
  - intros g. rewrite list_elem_of_fmap. split.
    + intros (x & -> & Hx). apply rangeViolations_elem in Hx
        as (f' & lo' & hi' & q & ? & ? & ? & ->). simpl. by exists lo', hi', q.
    + intros (lo' & hi' & q & ? & ? & ?).
      exists {| v_field := g; v_rule := rule_range lo' hi'; v_observed := Some (VNum q) |}.
      split; [done|]. apply rangeViolations_elem. by exists g, lo', hi', q.
Qed.

Lemma C7_witness :
  status (validate exampleConfig (toRaw kaggle 0 (jokic 55))) = repaired ∧
  usableFields (validate exampleConfig (toRaw kaggle 0 (jokic 55))) !! "ppg" = None.
Proof.
  pose proof (C7_out_of_range_repaired exampleConfig (toRaw kaggle 0 (jokic 55))
                "ppg" (num 0) (num 50) (num 55)) as H.
  assert (Hfew : tooManyInvalid exampleConfig (toRaw kaggle 0 (jokic 55)) = false)
    by (vm_compute; reflexivity).
  rewrite Hfew in H. destruct H as (H1 & _ & H3 & _).
  - vm_compute. reflexivity.
  - apply (bool_decide_unpack _). vm_compute. exact I.
  - vm_compute. reflexivity.
  - right. apply (bool_decide_unpack _). vm_compute. exact I.
  - split; [exact H1|exact H3].
Defined.

(** C7 as stated fails on a record without its team and with 70 points
    per game: the number is outside the range, two of the five required
    fields are missing or invalid, which is not more than the configured
    half, and yet the record is rejected, not repaired.  Besides, the
    documented range for points per game ends at 50, not 60: 55 points
    per game are clamped. *)
Lemma C7_counterexample :
  fields (toRaw kaggle 0 noTeam) !! "ppg" = Some (VNum (num 70)) ∧
  inRange (num 0) (num 50) (num 70) = false ∧
  inRange (num 0) (num 60) (num 70) = false ∧
  length (required_fields VALIDATION_RULES) = 5%nat ∧
  (length (missingRequired VALIDATION_RULES (toRaw kaggle 0 noTeam))
   + length (invalidRequired VALIDATION_RULES (toRaw kaggle 0 noTeam)) = 2)%nat ∧
  tooManyInvalid exampleConfig (toRaw kaggle 0 noTeam) = false ∧
  status (validate exampleConfig (toRaw kaggle 0 noTeam)) = rejected ∧
  inRange (num 0) (num 60) (num 55) = true ∧
  usableFields (validate exampleConfig (toRaw kaggle 0 (jokic 55))) !! "ppg" = None.
Proof.
  split_and!; vm_compute; reflexivity.
Qed.

(** Both branches of the range rule are live: with three of the five
    required fields out of range the configured half is exceeded and the
    record is rejected. *)
Example too_many_invalid_rejected :
  tooManyInvalid exampleConfig (toRaw kaggle 0 implausible) = true ∧
  status (validate exampleConfig (toRaw kaggle 0 implausible)) = rejected ∧
  status (validate exampleConfig (toRaw kaggle 0 (jokic 28.2))) = accepted.
Proof. split_and!; vm_compute; reflexivity. Qed.

(** The worked example of the design document: 28.2 from the source of
    precedence 1 and 27.9 from a source of lower precedence, tolerance
    0.5, give 28.2 without a conflict; with 24.0 in place of 27.9 the
    value is still 28.2 and the field is flagged. *)
Example design_scenario :
  let ppgOf (other : Q) :=
    reconcile exampleConfig
      [validate exampleConfig (toRaw nba_com 0 (jokic 28.2));
       validate exampleConfig (toRaw basketball_reference 0 (jokic other))]
      !! {| ek_name := "Nikola Jokic"; ek_team := "DEN"; ek_season := "2024" |}
    ≫= λ c, cr_fields c !! "ppg" in
  (λ cf, (cf_value cf, cf_source cf, cf_conflicted cf)) <$> ppgOf 27.9%Q
    = Some (CNum (num 28.2), nba_com, false) ∧
  (λ cf, (cf_value cf, cf_source cf, cf_conflicted cf)) <$> ppgOf 24.0%Q
    = Some (CNum (num 28.2), nba_com, true).
Proof. split; vm_compute; reflexivity. Qed.

End PipelineClaims.

(* ===================================================================== *)
(** * Further theorems: the dashboard page *)
(* ===================================================================== *)

Section DashboardExtras.
Import Dashboard.

Lemma dashboardCache_run evs : ∀ st,
  (QuerySettled ∈ evs → queryCache (run st evs) !! "dashboardData" = Some mockData) ∧
  (QuerySettled ∉ evs →
   queryCache (run st evs) !! "dashboardData" = queryCache st !! "dashboardData").
Proof.
  induction evs as [|e evs IH]; intros st.
  - split; [by intros ?%elem_of_nil|done].
  - simpl. destruct (IH (step st e)) as [IH1 IH2]. split.
    + intros [<-|Hin]%elem_of_cons; [|by apply IH1].
      destruct (IH (step st QuerySettled)) as [_ IH3].
      clear IH1 IH2.
      assert (Hor : QuerySettled ∈ evs ∨ QuerySettled ∉ evs).
      { clear. induction evs as [|e evs IHe]; [right; apply not_elem_of_nil|].
        destruct e; try (left; left; done);
          (destruct IHe as [?|?]; [left; by right|right; by intros [?|?]%elem_of_cons]). }
      destruct Hor as [Hin|Hin]; [by apply IH|].
      rewrite IH3 by done. simpl. apply lookup_insert_eq.
    + intros Hn. rewrite IH2.
      * destruct e; try done. exfalso. apply Hn. left.
      * intros Hin. apply Hn. by right.
Qed.

(** X1.  The dashboard shows the loading spinner exactly until the
    query has settled: whatever the visitor does with the two selects, the
    page renders the spinner if and only if no [QuerySettled] event has
    happened; from the first settlement on it renders the four arrays of
    the mock data and the table rows built from [topPlayers], and no
    later event brings the spinner back. *)
Theorem X1_dashboard_spinner_until_settled (evs : list Event) :
  (render (run initialState evs) = LoadingView ↔ QuerySettled ∉ evs) ∧
  (QuerySettled ∈ evs →
   renderedData (render (run initialState evs))
   = Some (topPlayers mockData, seasonStats mockData, positionDistribution mockData,
           teamPerformance mockData, imap renderRow (topPlayers mockData))).
Proof.
  destruct (dashboardCache_run evs initialState) as [Hin Hout].
  assert (Hloaded : QuerySettled ∈ evs →
            ∃ v, render (run initialState evs) = LoadedView v ∧
                 renderedData (LoadedView v)
                 = Some (topPlayers mockData, seasonStats mockData,
                         positionDistribution mockData, teamPerformance mockData,
                         imap renderRow (topPlayers mockData))).
  { intros H. destruct (render_loaded _ _ (Hin H)) as (v & Hv & E1 & E2 & E3 & E4 & E5).
    exists v. split; [done|]. simpl. by rewrite E1, E2, E3, E4, E5. }
  split.
  - split.
    + intros Hr H. destruct (Hloaded H) as (v & Hv & _). congruence.
    + intros H. apply render_loading. by rewrite (Hout H).
  - intros H. destruct (Hloaded H) as (v & -> & Hd). exact Hd.
Qed.

Lemma findMetric_Some k m : findMetric k = Some m → key m = k ∧ m ∈ metrics.
Proof.
  unfold findMetric. intros Hf. apply find_some in Hf as [Hin Hb].
  apply bool_decide_eq_true in Hb. split; [done|]. by apply list_elem_of_In.
Qed.

Lemma findMetric_None k : findMetric k = None ↔ (k ∉ key <$> metrics).
Proof.
  unfold findMetric. split.
  - intros Hf Hin. apply list_elem_of_fmap in Hin as (m & -> & Hm).
    apply list_elem_of_In in Hm. pose proof (find_none _ _ Hf m Hm) as Hb.
    simpl in Hb. by apply bool_decide_eq_false in Hb.
  - intros Hn. destruct (List.find _ _) as [m|] eqn:Hf; [|done].
    apply find_some in Hf as [Hin Hb]. apply bool_decide_eq_true in Hb.
    exfalso. apply Hn. apply list_elem_of_fmap. exists m. split; [done|].
    by apply list_elem_of_In.
Qed.

Lemma selectionsOffered_run evs : ∀ st,
  Forall fromOptions evs → selectionsOffered st → selectionsOffered (run st evs).
Proof.
  induction evs as [|e evs IH]; intros st Hevs Hst; [done|].
  apply Forall_cons in Hevs as [He Hevs]. simpl. apply IH; [done|].
  destruct Hst as [Hm Hs]. destruct e; split; simpl; done.
Qed.

(** X2.  As long as the selects deliver their own option values, the
    selected metric is always one of the [metrics] entries, so the
    [find] in the chart heading and in the bar colour never comes back
    [undefined]: the heading is ["Top Players by "] followed by the label
    of the selected metric, the bar has a fill colour, and each select
    shows a value that is among its options.  For a metric key that is not
    in [metrics] the lookup gives [undefined] and the heading is left
    without a label. *)
Theorem X2_dashboard_selects_stay_in_options (evs : list Event) :
  Forall fromOptions evs →
  let st := run initialState evs in
  (∃ m, findMetric (selectedMetric st) = Some m ∧ key m = selectedMetric st ∧
        headingFor (selectedMetric st) = "Top Players by " +:+ label m) ∧
  (∀ v, render st = LoadedView v →
        value (metricSelect v) ∈ options (metricSelect v) ∧
        value (seasonSelect v) ∈ options (seasonSelect v) ∧
        is_Some (fill (topPlayersChart v))) ∧
  (∀ k, k ∉ key <$> metrics →
        headingFor k = "Top Players by " ∧ findMetric k = None).
Proof.
  intros Hevs st.
  assert (Hoff : selectionsOffered st).
  { apply selectionsOffered_run; [done|]. split; simpl.
    - apply (bool_decide_unpack _). vm_compute. exact I.
    - apply (bool_decide_unpack _). vm_compute. exact I. }
  destruct Hoff as [Hm Hs].
  assert (Hfind : ∃ m, findMetric (selectedMetric st) = Some m).
  { destruct (findMetric (selectedMetric st)) as [m|] eqn:Hf; [by exists m|].
    by apply findMetric_None in Hf. }
  destruct Hfind as [m Hf]. split; [|split].
  - exists m. split; [done|]. split; [by apply findMetric_Some|].
    unfold headingFor. by rewrite Hf.
  - intros v Hv. unfold render, useQuery in Hv. rewrite dashboardQuery_key in Hv.
    destruct (queryCache st !! "dashboardData"); [|done].
    injection Hv as <-. simpl. split; [done|]. split; [done|]. rewrite Hf. by eexists.
  - intros k Hk. apply findMetric_None in Hk. unfold headingFor. by rewrite Hk.
Qed.

Lemma X2_witness :
  ∃ m, findMetric "apg" = Some m ∧
       headingFor "apg" = "Top Players by " +:+ label m.
Proof.
  assert (Hevs : Forall fromOptions
                   [QuerySettled; ChangeMetric "apg"; ChangeSeason "2022"]).
  { apply Forall_cons. split; [exact I|].
    apply Forall_cons. split; [apply (bool_decide_unpack _); vm_compute; exact I|].
    apply Forall_cons. split; [apply (bool_decide_unpack _); vm_compute; exact I|].
    apply Forall_nil_2. }
  destruct (X2_dashboard_selects_stay_in_options _ Hevs) as ((m & Hm & _ & Hh) & _).
  exists m. split; [exact Hm|exact Hh].
Defined.

Lemma cellFill_lookup {A} index (entry : A) :
  COLORS !! (index mod length COLORS) = Some (cellFill index entry).
Proof.
  unfold cellFill.
  destruct (lookup_lt_is_Some_2 COLORS (index mod length COLORS)) as [c Hc].
  { apply Nat.mod_upper_bound. simpl. lia. }
  by rewrite Hc.
Qed.

(** X3.  The cells of the position pie chart take their colours from
    [COLORS] by [index % COLORS.length]: a loaded page renders one cell
    per entry of the chart data, the colour of every cell is an element
    of [COLORS] (the lookup never runs past the end of the array), and
    the colours repeat with period five. *)
Theorem X3_dashboard_pie_colours_in_palette (st : State) (v : Loaded) (index : nat) :
  render st = LoadedView v →
  length (pieCellFills v) = length (chartData (positionPie v)) ∧
  (index < length (chartData (positionPie v)) →
   ∃ c, pieCellFills v !! index = Some c ∧ c ∈ COLORS ∧
        COLORS !! (index mod 5) = Some c) ∧
  (∀ A (entry : A), cellFill (index + 5) entry = cellFill index entry).
Proof.
  intros Hv. unfold render, useQuery in Hv. rewrite dashboardQuery_key in Hv.
  destruct (queryCache st !! "dashboardData") as [d|]; [|done].
  injection Hv as <-. simpl. split; [by rewrite length_imap|]. split.
  - intros Hi. destruct (lookup_lt_is_Some_2 _ _ Hi) as [e He].
    exists (cellFill index e). rewrite list_lookup_imap, He. simpl.
    split; [done|]. pose proof (cellFill_lookup index e) as Hl.
    split; [by eapply list_elem_of_lookup_2|exact Hl].
  - intros A entry. unfold cellFill. simpl length.
    replace ((index + 5) mod 5) with (index mod 5); [done|].
    rewrite <-(Nat.Div0.add_mod_idemp_r index 5 5). simpl. by rewrite Nat.add_0_r.
Qed.

Lemma X3_witness :
  ∃ v, render (run initialState [QuerySettled]) = LoadedView v ∧
       length (pieCellFills v) = length (chartData (positionPie v)).
Proof.
  eexists. split; [reflexivity|].
  exact (proj1 (X3_dashboard_pie_colours_in_palette
                  (run initialState [QuerySettled]) _ 0 eq_refl)).
Defined.

End DashboardExtras.

(* ===================================================================== *)
(** * Further theorems: the data collection page *)
(* ===================================================================== *)

Section DataCollectionExtras.
Import DataCollection.

Lemma collection_step_sameUpToSeason p1 p2 e1 e2 :
  Inv p1 → sameUpToSeason p1 p2 → seasonVariant e1 e2 →
  sameUpToSeason (step p1 e1) (step p2 e2).
Proof.
  intros HI Hs Hv. pose proof Hs as (Hc & Ht & Hn & Hk & Hf).
  destruct Hv as [[|v|ms|i]|v1 v2].
  - unfold step. cbn [renderButton disabled]. rewrite <-Hc.
    destruct (isCollecting (world p1)); [exact Hs|].
    rewrite !handler_start. unfold sameUpToSeason, settle, started. simpl.
    rewrite Ht, Hn, Hk, Hf. by repeat split.
  - by repeat split.
  - repeat split; simpl; congruence.
  - unfold step. rewrite <-Hk, <-Hn.
    destruct (tasks p1 !! i) as [t|] eqn:Hi; [|exact Hs].
    destruct (bool_decide (due t ≤ now p1)%Z); [|exact Hs].
    assert (Hg : goodTask p1 t).
    { pose proof (inv_tasks _ HI) as Hall. rewrite Forall_forall in Hall.
      apply Hall. by eapply list_elem_of_lookup_2. }
    destruct Hg as (Hset & Hres & _). rewrite Hset, Hres, !handler_resume.
    unfold sameUpToSeason, settle, completed. simpl.
    rewrite Ht, Hn, Hf. by repeat split.
  - by repeat split.
Qed.

Lemma collection_run_sameUpToSeason evs1 evs2 :
  Forall2 seasonVariant evs1 evs2 →
  ∀ p1 p2, Inv p1 → sameUpToSeason p1 p2 →
           sameUpToSeason (run p1 evs1) (run p2 evs2).
Proof.
  induction 1 as [|e1 e2 evs1 evs2 He _ IH]; intros p1 p2 HI Hs; [exact Hs|].
  simpl. apply IH; [by apply inv_step|by apply collection_step_sameUpToSeason].
Qed.

Lemma season_step pg e :
  Inv pg →
  selectedSeason (world (step pg e))
  = match e with SelectSeason v => v | _ => selectedSeason (world pg) end.
Proof.
  intros HI. destruct e as [|v|ms|i]; try done.
  - unfold step. cbn [renderButton disabled].
    destruct (isCollecting (world pg)); [done|]. by rewrite handler_start.
  - unfold step. destruct (tasks pg !! i) as [t|] eqn:Hi; [|done].
    destruct (bool_decide (due t ≤ now pg)%Z); [|done].
    assert (Hg : goodTask pg t).
    { pose proof (inv_tasks _ HI) as Hall. rewrite Forall_forall in Hall.
      apply Hall. by eapply list_elem_of_lookup_2. }
    destruct Hg as (Hset & Hres & _). by rewrite Hset, Hres, handler_resume.
Qed.

Lemma season_run evs : ∀ pg,
  Inv pg →
  selectedSeason (world (run pg evs)) = lastSeason (selectedSeason (world pg)) evs.
Proof.
  induction evs as [|e evs IH]; intros pg HI; [done|].
  simpl. rewrite IH by (by apply inv_step). unfold lastSeason. simpl.
  by rewrite (season_step pg e HI).
Qed.

(** X4.  The season select has no effect on a collection: two
    histories of the page that differ only in the seasons picked in the
    select show the same toasts, the same [isCollecting] flag and button,
    and have the same invocations waiting and finished.  The handler
    never reads [selectedSeason]; the select only records the value last
    picked (["2024"] when none was). *)
Theorem X4_collection_ignores_season (evs1 evs2 : list Event) :
  Forall2 seasonVariant evs1 evs2 →
  let p1 := run initialPage evs1 in
  let p2 := run initialPage evs2 in
  sameUpToSeason p1 p2 ∧
  renderButton (world p1) = renderButton (world p2) ∧
  selectedSeason (world p1) = lastSeason "2024" evs1.
Proof.
  intros Hevs p1 p2.
  assert (Hs : sameUpToSeason p1 p2).
  { apply collection_run_sameUpToSeason; [exact Hevs|exact inv_initial|by repeat split]. }
  split; [exact Hs|]. split.
  - unfold renderButton. by destruct Hs as (-> & _).
  - apply (season_run evs1 initialPage inv_initial).
Qed.

Lemma X4_witness :
  sameUpToSeason
    (run initialPage [SelectSeason "2021"; ClickStart; Advance 3000; TimerFires 0])
    (run initialPage [SelectSeason "2023"; ClickStart; Advance 3000; TimerFires 0]).
Proof.
  assert (Hevs : Forall2 seasonVariant
            [SelectSeason "2021"; ClickStart; Advance 3000; TimerFires 0]
            [SelectSeason "2023"; ClickStart; Advance 3000; TimerFires 0]).
  { repeat constructor. }
  destruct (X4_collection_ignores_season _ _ Hevs) as [Hs _]. exact Hs.
Defined.

(** X5.  The try/catch/finally of the start handler absorbs every
    outcome of the awaited promise.  Whatever promise stands at the
    [await] and whatever state the page is in when it settles, the
    handler first sets the flag and shows the loading toast, and when
    resumed it replaces that toast by the success toast (fulfilled) or by
    the error toast (rejected), resets [isCollecting], leaves the selected
    season and the other toasts alone, and completes normally with
    [undefined]: a rejection is never passed on to the caller.  With the
    three-second timer promise this is [handleStartCollection] itself. *)
Theorem X5_handler_survives_rejection (p : Promise) (w : World) :
  collectionHandlerAround (timeoutPromise 3000) = handleStartCollection ∧
  ∃ k, collectionHandlerAround p w = (started w, Await p k) ∧
       ∀ w', k (outcome p) w' = (settledWorld (outcome p) w', Ret VUndefined).
Proof.
  split; [reflexivity|]. eexists. split; [reflexivity|].
  intros w'. destruct (outcome p); reflexivity.
Qed.

Lemma waiting_step pg b e :
  Waiting pg b → (0 ≤ b - elapsed [e])%Z →
  Waiting (step pg e) (b - elapsed [e]) ∧ finished (step pg e) = finished pg.
Proof.
  intros [HI Hf Ht Hd] Hb. destruct e as [|v|ms|i].
  - assert (Hs : step pg ClickStart = pg).
    { unfold step. cbn [renderButton disabled]. by rewrite Hf. }
    rewrite Hs. split; [|done]. split; try done.
    intros t Hin. specialize (Hd t Hin). simpl. lia.
  - split; [|done]. split; try done.
    + by apply (inv_step pg (SelectSeason v)).
    + intros t Hin. specialize (Hd t Hin). simpl in *. lia.
  - split; [|done]. split; try done.
    + by apply (inv_step pg (Advance ms)).
    + intros t Hin. specialize (Hd t Hin). simpl in *. lia.
  - assert (Hs : step pg (TimerFires i) = pg).
    { unfold step. destruct (tasks pg !! i) as [t|] eqn:Hi; [|done].
      rewrite bool_decide_eq_false_2; [done|].
      assert (Hin : t ∈ tasks pg) by (by eapply list_elem_of_lookup_2).
      specialize (Hd t Hin). simpl in Hb. lia. }
    rewrite Hs. split; [|done]. split; try done.
    intros t Hin. specialize (Hd t Hin). simpl. lia.
Qed.

Lemma elapsed_nonneg evs : (0 ≤ elapsed evs)%Z.
Proof. induction evs as [|[]]; simpl; lia. Qed.

Lemma elapsed_cons e evs : elapsed (e :: evs) = (elapsed [e] + elapsed evs)%Z.
Proof. destruct e; simpl; lia. Qed.

Lemma waiting_run evs : ∀ pg b,
  Waiting pg b → (elapsed evs ≤ b)%Z →
  Waiting (run pg evs) (b - elapsed evs) ∧ finished (run pg evs) = finished pg.
Proof.
  induction evs as [|e evs IH]; intros pg b Hw Hb.
  - simpl. replace (b - 0)%Z with b by lia. done.
  - rewrite elapsed_cons in Hb |- *. pose proof (elapsed_nonneg evs).
    destruct (waiting_step pg b e Hw) as [Hw' Hfin]; [lia|].
    change (run pg (e :: evs)) with (run (step pg e) evs).
    destruct (IH (step pg e) (b - elapsed [e])%Z Hw') as [Hw'' Hfin'']; [lia|].
    split; [|congruence].
    by replace (b - (elapsed [e] + elapsed evs))%Z
      with (b - elapsed [e] - elapsed evs)%Z by lia.
Qed.

(** X6.  A collection that was started stays in progress for its full
    three seconds.  From any state the page can reach in which no
    collection runs, after a click on Start Collection and any further
    events during which less than 3000 ms pass (clicks, season changes,
    timer callbacks fired early), [isCollecting] is still true, the button
    is still disabled, the loading toast is still shown and no further
    invocation has finished. *)
Theorem X6_collection_lasts_three_seconds (before during : list Event) :
  isCollecting (world (run initialPage before)) = false →
  (elapsed during < 3000)%Z →
  let pg := run (step (run initialPage before) ClickStart) during in
  isCollecting (world pg) = true ∧
  disabled (renderButton (world pg)) = true ∧
  toasts (world pg) !! "collection" = Some loadingToast ∧
  finished pg = finished (run initialPage before).
Proof.
  intros Hidle Hel pg.
  pose proof (inv_run before initialPage inv_initial) as HI.
  set (pg0 := run initialPage before) in *.
  assert (Hnil : tasks pg0 = []).
  { pose proof (inv_flag _ HI) as Hf. rewrite Hidle in Hf. symmetry in Hf.
    apply bool_decide_eq_false in Hf. by apply dec_stable. }
  assert (Hw : Waiting (step pg0 ClickStart) 2999).
  { split.
    - by apply inv_step.
    - unfold step. cbn [renderButton disabled]. by rewrite Hidle, handler_start.
    - unfold step. cbn [renderButton disabled]. rewrite Hidle, handler_start. simpl.
      by rewrite lookup_insert_eq.
    - unfold step. cbn [renderButton disabled]. rewrite Hidle, handler_start. simpl.
      rewrite Hnil. intros t ->%list_elem_of_singleton. simpl. lia. }
  destruct (waiting_run during _ 2999 Hw) as [[_ Hf Ht _] Hfin]; [lia|].
  subst pg. split; [exact Hf|]. split; [exact Hf|]. split; [exact Ht|].
  rewrite Hfin. unfold step. cbn [renderButton disabled]. by rewrite Hidle, handler_start.
Qed.

Lemma X6_witness :
  isCollecting
    (world (run (step (run initialPage [ClickStart; Advance 3000; TimerFires 0]) ClickStart)
                [Advance 1000; ClickStart; SelectSeason "2022"; TimerFires 0; Advance 1999]))
  = true.
Proof.
  assert (H1 : isCollecting (world (run initialPage [ClickStart; Advance 3000; TimerFires 0]))
               = false) by reflexivity.
  assert (H2 : (elapsed [Advance 1000; ClickStart; SelectSeason "2022"; TimerFires 0;
                         Advance 1999] < 3000)%Z) by (vm_compute; reflexivity).
  destruct (X6_collection_lasts_three_seconds _ _ H1 H2) as [H _]. exact H.
Defined.

End DataCollectionExtras.

(* ===================================================================== *)
(** * Further theorems: header and routes *)
(* ===================================================================== *)

Section KeyedLists.

(** In a list without two elements of the same key, the elements of a
    given key are none or exactly one. *)
Lemma filter_key_NoDup {A} (f : A → string) (k : string) (l : list A) :
  NoDup (f <$> l) →
  ((k ∉ f <$> l) ∧ filter (λ x, f x = k) l = []) ∨
  (∃ x, x ∈ l ∧ f x = k ∧ filter (λ x, f x = k) l = [x]).
Proof.
  induction l as [|a l IH]; intros Hnd.
  - left. split; [apply not_elem_of_nil|done].
  - rewrite fmap_cons in Hnd. apply NoDup_cons in Hnd as [Hnotin Hnd].
    rewrite filter_cons. destruct (decide (f a = k)) as [Heq|Hne].
    + right. exists a. split; [left|]. split; [done|].
      destruct (IH Hnd) as [[_ ->]|(x & Hx & Hfx & _)]; [done|].
      exfalso. apply Hnotin. rewrite Heq, <-Hfx. by apply list_elem_of_fmap_2.
    + destruct (IH Hnd) as [[Hk Hf]|(x & Hx & Hfx & Hf)].
      * left. split; [|done]. rewrite fmap_cons. apply not_elem_of_cons. by split.
      * right. exists x. split; [by right|]. by split.
Qed.

End KeyedLists.

Section HeaderExtras.
Import Header.

Lemma navItems_NoDup : NoDup (path <$> navItems).
Proof. apply (bool_decide_unpack _). vm_compute. exact I. Qed.

Lemma activeLinks_filter st (items : list NavItem) :
  filter (λ l, className l = "nav-link active") (renderLink st <$> items)
  = renderLink st <$> filter (λ item, path item = pathname st) items.
Proof.
  induction items as [|item items IH]; [done|].
  rewrite fmap_cons, !filter_cons, IH.
  destruct (decide (className (renderLink st item) = "nav-link active")) as [Hc|Hc];
    destruct (decide (path item = pathname st)) as [Hp|Hp]; try done; exfalso.
  - unfold renderLink, isActive in Hc. simpl in Hc.
    rewrite bool_decide_eq_false_2 in Hc by (intros ?; by apply Hp). discriminate Hc.
  - apply Hc. unfold renderLink, isActive. simpl.
    by rewrite bool_decide_eq_true_2 by done.
Qed.

Lemma activeLinks_render st :
  activeLinks (render st)
  = renderLink st <$> filter (λ item, path item = pathname st) navItems.
Proof. apply activeLinks_filter. Qed.

Lemma navItems_filter_one st item :
  item ∈ navItems → path item = pathname st →
  filter (λ item, path item = pathname st) navItems = [item].
Proof.
  intros Hin Hp.
  destruct (filter_key_NoDup path (pathname st) navItems navItems_NoDup)
    as [[Hk _]|(x & Hx & Hfx & Hf)].
  - exfalso. apply Hk. rewrite <-Hp. by apply list_elem_of_fmap_2.
  - assert (Hitem : item ∈ filter (λ item, path item = pathname st) navItems)
      by (by apply list_elem_of_filter).
    rewrite Hf in Hitem. apply list_elem_of_singleton in Hitem. by rewrite Hf, Hitem.
Qed.

Lemma activeLinks_current st item :
  item ∈ navItems → path item = pathname st →
  activeLinks (render st) =
    [ {| to := pathname st; className := "nav-link active";
         linkIcon := icon item; linkLabel := label item |} ].
Proof.
  intros Hin Hp. rewrite activeLinks_render, (navItems_filter_one st item Hin Hp). simpl.
  unfold renderLink, isActive. rewrite bool_decide_eq_true_2 by done.
  by rewrite Hp.
Qed.

(** X7.  The navigation bar marks the current page and nothing else.
    For every pathname at most one navigation link carries the class
    [active]; none does when the pathname is not the path of a navigation
    item (the comparison is [===] on the whole pathname), and when it is,
    the active link is the link to that pathname with the icon and label
    of its item.  A click on the i-th navigation link closes the mobile
    menu and leaves that link as the only active one. *)
Theorem X7_header_marks_current_page (st : State) :
  (length (activeLinks (render st)) ≤ 1) ∧
  (pathname st ∉ (path <$> navItems) → activeLinks (render st) = []) ∧
  (∀ item, item ∈ navItems → path item = pathname st →
     activeLinks (render st) =
       [ {| to := pathname st; className := "nav-link active";
            linkIcon := icon item; linkLabel := label item |} ]) ∧
  (∀ i item, navItems !! i = Some item →
     let st' := step st (ClickNavLink i) in
     isMobileMenuOpen st' = false ∧ navClass (render st') = "nav " ∧
     to <$> activeLinks (render st') = [path item]).
Proof.
  pose proof activeLinks_render as Hact.
  split; [|split; [|split]].
  - rewrite Hact, length_fmap.
    destruct (filter_key_NoDup path (pathname st) navItems navItems_NoDup)
      as [[_ ->]|(x & _ & _ & ->)]; simpl; lia.
  - intros Hnot. rewrite Hact.
    destruct (filter_key_NoDup path (pathname st) navItems navItems_NoDup)
      as [[_ ->]|(x & Hx & Hfx & _)]; [done|].
    exfalso. apply Hnot. rewrite <-Hfx. by apply list_elem_of_fmap_2.
  - apply activeLinks_current.
  - intros i item Hi st'. subst st'. unfold step. rewrite Hi.
    split; [done|]. split; [done|].
    rewrite (activeLinks_current _ item); [done| |done].
    by eapply list_elem_of_lookup_2.
Qed.

Lemma toggles_cons e evs :
  toggles (e :: evs) = ((if isToggle e then 1 else 0) + toggles evs)%nat.
Proof. unfold toggles. simpl. by destruct (isToggle e). Qed.

Lemma menu_run_no_nav evs : ∀ st,
  Forall (λ e, isNavClick e = false) evs →
  isMobileMenuOpen (run st evs) = xorb (isMobileMenuOpen st) (Nat.odd (toggles evs)).
Proof.
  induction evs as [|e evs IH]; intros st Hevs.
  - simpl. by destruct (isMobileMenuOpen st).
  - apply Forall_cons in Hevs as [He Hevs].
    change (run st (e :: evs)) with (run (step st e) evs).
    rewrite (IH _ Hevs), toggles_cons.
    destruct e as [|i| |p]; simpl in *; try done.
    rewrite Nat.odd_succ, <-Nat.negb_odd.
    by destruct (isMobileMenuOpen st), (Nat.odd (toggles evs)).
Qed.

(** X8.  The mobile menu follows the presses on its button.  Over
    events without a click on a navigation link, the menu is open exactly
    when the presses on the menu button changed it an odd number of times:
    a click on the logo navigates to the root but, having no [onClick],
    leaves the menu as it is, and so does a change of location from
    elsewhere.  After a click on a navigation link the menu is closed,
    and only the presses made since then count. *)
Theorem X8_menu_follows_toggles (st : State) (before after : list Event) (i : nat) :
  Forall (λ e, isNavClick e = false) after →
  isMobileMenuOpen (run st after)
    = xorb (isMobileMenuOpen st) (Nat.odd (toggles after)) ∧
  pathname (run st (after ++ [ClickLogo])) = "/" ∧
  isMobileMenuOpen (run st (after ++ [ClickLogo])) = isMobileMenuOpen (run st after) ∧
  (i < length navItems →
   isMobileMenuOpen (run st (before ++ ClickNavLink i :: after)) = Nat.odd (toggles after)).
Proof.
  intros Hafter. split; [by apply menu_run_no_nav|].
  unfold run. rewrite foldl_app. split; [done|]. split; [done|].
  intros Hi. rewrite foldl_app. simpl.
  destruct (lookup_lt_is_Some_2 navItems i Hi) as [item Hitem]. rewrite Hitem.
  fold (run {| isMobileMenuOpen := false; pathname := path item |} after).
  by rewrite menu_run_no_nav.
Qed.

Lemma X8_witness :
  isMobileMenuOpen
    (run {| isMobileMenuOpen := false; pathname := "/" |}
         [ToggleMenu; ClickLogo; ToggleMenu; LocationChanged "/about"; ToggleMenu])
  = true.
Proof.
  assert (H : Forall (λ e, isNavClick e = false)
                [ToggleMenu; ClickLogo; ToggleMenu; LocationChanged "/about"; ToggleMenu]).
  { repeat constructor. }
  destruct (X8_menu_follows_toggles {| isMobileMenuOpen := false; pathname := "/" |}
              [ToggleMenu] _ 1 H) as [H1 _].
  exact H1.
Defined.

End HeaderExtras.

Section AppExtras.
Import App.

Lemma navItems_routes : Header.path <$> Header.navItems = routes.*1.
Proof. reflexivity. Qed.

Lemma routes_NoDup : NoDup routes.*1.
Proof. apply (bool_decide_unpack _). vm_compute. exact I. Qed.

(** In a list of pairs without two equal keys a key has one value. *)
Lemma assoc_unique {V} (l : list (string * V)) k v1 v2 :
  NoDup l.*1 → (k, v1) ∈ l → (k, v2) ∈ l → v1 = v2.
Proof.
  induction l as [|[k' v'] l IH]; intros Hnd H1 H2; [by apply elem_of_nil in H1|].
  rewrite fmap_cons in Hnd. apply NoDup_cons in Hnd as [Hnotin Hnd]. simpl in Hnotin.
  apply elem_of_cons in H1 as [H1|H1]; apply elem_of_cons in H2 as [H2|H2].
  - congruence.
  - exfalso. apply Hnotin. injection H1 as <- <-.
    by apply (list_elem_of_fmap_2 fst l (k, v2)).
  - exfalso. apply Hnotin. injection H2 as <- <-.
    by apply (list_elem_of_fmap_2 fst l (k, v1)).
  - by apply IH.
Qed.

Lemma internalLinks_routes p : p ∈ internalLinks → p ∈ routes.*1.
Proof.
  revert p. apply (proj1 (Forall_forall (λ p, p ∈ routes.*1) internalLinks)).
  apply (bool_decide_unpack _). vm_compute. exact I.
Qed.

(** The pathname is one of the paths of the navigation bar. *)
Lemma onNav_step st e :
  viaLinks e →
  Header.pathname st ∈ Header.path <$> Header.navItems →
  Header.pathname (Header.step st e) ∈ Header.path <$> Header.navItems.
Proof.
  intros He Hst. destruct e as [|i| |p]; unfold Header.step; try done.
  - destruct (Header.navItems !! i) as [item|] eqn:Hi; [|done].
    cbn [Header.pathname]. apply list_elem_of_fmap_2. by eapply list_elem_of_lookup_2.
  - apply (bool_decide_unpack _). vm_compute. exact I.
  - cbn [Header.pathname]. simpl in He. revert p He.
    apply (proj1 (Forall_forall (λ p, p ∈ Header.path <$> Header.navItems)
                    (footerLinks ++ homeLinks))).
    apply (bool_decide_unpack _). vm_compute. exact I.
Qed.

Lemma onNav_run evs : ∀ st,
  Forall viaLinks evs →
  Header.pathname st ∈ Header.path <$> Header.navItems →
  Header.pathname (Header.run st evs) ∈ Header.path <$> Header.navItems.
Proof.
  induction evs as [|e evs IH]; intros st Hevs Hst; [done|].
  apply Forall_cons in Hevs as [He Hevs]. simpl. apply IH; [done|].
  by apply onNav_step.
Qed.

(** X9.  The links of the site lead only to paths that [App] routes.
    Every target of an internal link (logo, navigation bar, footer, home
    page) is, letter for letter, the path of a [<Route>], and no two
    routes have the same path.  Starting from a pathname that is written
    exactly as the path of a route and moving only by such links, with
    the menu button pressed at will, the pathname stays the path of
    exactly one route and the navigation bar marks exactly the link to
    it.  (How the router treats other spellings of a path is not part of
    this statement; for those the navigation bar marks no link.) *)
Theorem X9_links_stay_on_route_paths (st : Header.State) (evs : list Header.Event) :
  Header.pathname st ∈ routes.*1 →
  Forall viaLinks evs →
  let st' := Header.run st evs in
  (∀ p, p ∈ internalLinks → ∃ pg, (p, pg) ∈ routes) ∧
  NoDup routes.*1 ∧
  (∃ pg, (Header.pathname st', pg) ∈ routes ∧
         ∀ pg', (Header.pathname st', pg') ∈ routes → pg' = pg) ∧
  Header.to <$> Header.activeLinks (Header.render st') = [Header.pathname st'].
Proof.
  intros Hst Hevs st'.
  assert (Hnav : Header.pathname st' ∈ Header.path <$> Header.navItems).
  { apply onNav_run; [done|]. by rewrite navItems_routes. }
  split; [|split; [exact routes_NoDup|split]].
  - intros p Hp. apply internalLinks_routes in Hp.
    apply list_elem_of_fmap in Hp as ([p' pg] & -> & Hin). by exists pg.
  - rewrite navItems_routes in Hnav.
    apply list_elem_of_fmap in Hnav as ([p pg] & Hp & Hin). simpl in Hp. subst p.
    exists pg. split; [done|].
    intros pg' Hin'. exact (assoc_unique routes _ pg' pg routes_NoDup Hin' Hin).
  - apply list_elem_of_fmap in Hnav as (item & Hp & Hin).
    by rewrite (activeLinks_current st' item Hin (eq_sym Hp)).
Qed.

Lemma X9_witness :
  Header.to <$> Header.activeLinks (Header.render (Header.run
      {| Header.isMobileMenuOpen := false; Header.pathname := "/" |}
      [Header.ClickNavLink 2; Header.LocationChanged "/about"; Header.ToggleMenu]))
  = ["/about"].
Proof.
  assert (H1 : Header.pathname {| Header.isMobileMenuOpen := false; Header.pathname := "/" |}
               ∈ routes.*1)
    by (apply (bool_decide_unpack _); vm_compute; exact I).
  assert (H2 : Forall viaLinks
                 [Header.ClickNavLink 2; Header.LocationChanged "/about"; Header.ToggleMenu]).
  { apply Forall_cons. split; [exact I|].
    apply Forall_cons. split; [apply (bool_decide_unpack _); vm_compute; exact I|].
    apply Forall_cons. split; [exact I|]. apply Forall_nil_2. }
  destruct (X9_links_stay_on_route_paths _ _ H1 H2) as (_ & _ & _ & H). exact H.
Defined.

End AppExtras.

(* ===================================================================== *)
(** * Further theorems: the player analysis page *)
(* ===================================================================== *)

Section PlayerAnalysisExtras.
Import PlayerAnalysis.

Lemma findPlayer_Some ps n p : findPlayer ps n = Some p → p ∈ ps ∧ name p = n.
Proof.
  unfold findPlayer. intros Hf. apply find_some in Hf as [Hin Hp].
  apply bool_decide_eq_true in Hp. split; [by apply list_elem_of_In|done].
Qed.

Lemma findPlayer_None ps n : findPlayer ps n = None ↔ (n ∉ name <$> ps).
Proof.
  unfold findPlayer. split.
  - intros Hf Hin. apply list_elem_of_fmap in Hin as (p & -> & Hp).
    apply list_elem_of_In in Hp. pose proof (find_none _ _ Hf p Hp) as Hx.
    simpl in Hx. by apply bool_decide_eq_false in Hx.
  - intros Hnot. destruct (List.find _ ps) as [p|] eqn:Hf; [|done].
    apply find_some in Hf as [Hin Hp]. apply bool_decide_eq_true in Hp.
    exfalso. apply Hnot. rewrite <-Hp. apply list_elem_of_fmap_2.
    by apply list_elem_of_In.
Qed.

Lemma render_TypeError_inv st :
  render st = TypeError →
  ∃ d, queryCache st !! "playerData" = Some d ∧
       analysisType st = "comparison" ∧
       ((selectedPlayer1 st ∉ names d) ∨ (selectedPlayer2 st ∉ names d)).
Proof.
  unfold render, names.
  destruct (queryCache st !! "playerData") as [d|]; [|done].
  destruct (decide (analysisType st = "comparison")) as [Hc|Hc].
  - rewrite bool_decide_eq_true_2 by done.
    destruct (findPlayer (players d) (selectedPlayer1 st)) as [p1|] eqn:H1;
      destruct (findPlayer (players d) (selectedPlayer2 st)) as [p2|] eqn:H2;
      [done|..]; intros _; exists d; (split; [done|]); (split; [done|]).
    + right. by apply findPlayer_None.
    + left. by apply findPlayer_None.
    + left. by apply findPlayer_None.
  - rewrite bool_decide_eq_false_2 by done.
    by destruct (bool_decide (analysisType st = "strength")).
Qed.

Lemma render_found st d p1 p2 :
  queryCache st !! "playerData" = Some d →
  findPlayer (players d) (selectedPlayer1 st) = Some p1 →
  findPlayer (players d) (selectedPlayer2 st) = Some p2 →
  render st =
    LoadedView (renderButton st <$> analysisTypes)
      {| sel_value := selectedPlayer1 st; sel_options := renderOption <$> players d |}
      {| sel_value := selectedPlayer2 st; sel_options := renderOption <$> players d |}
      (if bool_decide (analysisType st = "comparison")
       then Some (ComparisonPanel (radarChart p1 p2) (name p1) (name p2) (comparisonRows p1 p2))
       else if bool_decide (analysisType st = "strength")
       then Some (StrengthPanel (strengthCategories d) (renderCard <$> strengthCategories d))
       else None).
Proof.
  intros Hd H1 H2. unfold render. rewrite Hd, H1, H2.
  by destruct (bool_decide (analysisType st = "comparison")),
             (bool_decide (analysisType st = "strength")).
Qed.

(** X10.  The comparison view depends on both lookups succeeding.  The
    component throws a TypeError while rendering exactly when the data is
    loaded, the analysis type is ["comparison"] and one of the two
    selected names is not the name of a player in the data ([find] gave
    [undefined] and the block reads its fields).  The other views never
    read the two players: when the type is not ["comparison"], changing
    both selections leaves the panel below the selects as it was. *)
Theorem X10_comparison_crashes_on_unknown_player (st : State) :
  (render st = TypeError ↔
   ∃ d, queryCache st !! "playerData" = Some d ∧
        analysisType st = "comparison" ∧
        ((selectedPlayer1 st ∉ names d) ∨ (selectedPlayer2 st ∉ names d))) ∧
  (analysisType st ≠ "comparison" →
   ∀ v1 v2, panelOf (render (run st [SelectPlayer1 v1; SelectPlayer2 v2]))
            = panelOf (render st)).
Proof.
  split.
  - split; [apply render_TypeError_inv|].
    intros (d & Hd & Hc & Hn). unfold render, names in *. rewrite Hd.
    rewrite bool_decide_eq_true_2 by done.
    destruct Hn as [Hn|Hn]; apply findPlayer_None in Hn; rewrite Hn; [done|].
    by destruct (findPlayer (players d) (selectedPlayer1 st)).
  - intros Hc v1 v2. unfold render. simpl.
    destruct (queryCache st !! "playerData") as [d|]; [|done].
    rewrite !bool_decide_eq_false_2 by done.
    by destruct (bool_decide (analysisType st = "strength")).
Qed.

Lemma selectionsListed_step st e :
  userEvent e → selectionsListed st → selectionsListed (step st e).
Proof.
  intros He (H1 & H2 & H3 & H4). destruct e as [v|v|k|]; simpl in He.
  - by split.
  - by split.
  - by split.
  - split; [done|]. split; [done|]. split; [done|]. simpl. intros d.
    rewrite lookup_insert_eq. by intros [= <-].
Qed.

Lemma selectionsListed_run evs : ∀ st,
  Forall userEvent evs → selectionsListed st → selectionsListed (run st evs).
Proof.
  induction evs as [|e evs IH]; intros st Hevs Hst; [done|].
  apply Forall_cons in Hevs as [He Hevs]. simpl. apply IH; [done|].
  by apply selectionsListed_step.
Qed.

Lemma selectionsListed_initial : selectionsListed initialState.
Proof.
  split; [|split; [|split]].
  - apply (bool_decide_unpack _). vm_compute. exact I.
  - apply (bool_decide_unpack _). vm_compute. exact I.
  - apply (bool_decide_unpack _). vm_compute. exact I.
  - simpl. intros d. by rewrite lookup_empty.
Qed.

Lemma playerCache_run evs : ∀ st,
  QuerySettled ∈ evs → queryCache (run st evs) !! "playerData" = Some mockData.
Proof.
  induction evs as [|e evs IH] using rev_ind; intros st Hin.
  - by apply elem_of_nil in Hin.
  - unfold run. rewrite foldl_app. simpl. fold (run st evs).
    apply elem_of_app in Hin as [Hin|Hin].
    + specialize (IH st Hin). by destruct e; simpl; try done; rewrite lookup_insert_eq.
    + apply list_elem_of_singleton in Hin. subst e. simpl. by rewrite lookup_insert_eq.
Qed.

Lemma activeButtons_filter st (types : list AnalysisType) :
  filter (λ b, tb_class b = "type-btn active") (renderButton st <$> types)
  = renderButton st <$> filter (λ t, key t = analysisType st) types.
Proof.
  induction types as [|t types IH]; [done|].
  rewrite fmap_cons, !filter_cons, IH.
  destruct (decide (tb_class (renderButton st t) = "type-btn active")) as [Hc|Hc];
    destruct (decide (key t = analysisType st)) as [Hp|Hp]; try done; exfalso.
  - unfold renderButton in Hc. simpl in Hc.
    rewrite bool_decide_eq_false_2 in Hc by (intros ?; by apply Hp). discriminate Hc.
  - apply Hc. unfold renderButton. simpl.
    by rewrite bool_decide_eq_true_2 by done.
Qed.

Lemma analysisTypes_NoDup : NoDup (key <$> analysisTypes).
Proof. apply (bool_decide_unpack _). vm_compute. exact I. Qed.

Lemma names_options d : opt_value <$> (renderOption <$> players d) = names d.
Proof. unfold names. rewrite <-list_fmap_compose. by apply list_fmap_ext. Qed.

(** X11.  Used through its own controls the page never crashes.  When
    the selects deliver values of their options and the buttons the keys
    of their types, no reachable state renders to a TypeError; once the
    query has settled the page is loaded, each select shows one of its
    options, exactly the button of the current analysis type is marked
    active, and the page shows no panel at all exactly for the types
    ["trends"] and ["insights"], which have a button but no block. *)
Theorem X11_analysis_never_crashes (evs : list Event) :
  Forall userEvent evs →
  let st := run initialState evs in
  render st ≠ TypeError ∧
  (QuerySettled ∈ evs →
   ∃ buttons select1 select2 panel,
     render st = LoadedView buttons select1 select2 panel ∧
     sel_value select1 ∈ opt_value <$> sel_options select1 ∧
     sel_value select2 ∈ opt_value <$> sel_options select2 ∧
     tb_key <$> activeButtons (render st) = [analysisType st] ∧
     (panel = None ↔ analysisType st = "trends" ∨ analysisType st = "insights")).
Proof.
  intros Hevs st.
  pose proof (selectionsListed_run evs initialState Hevs selectionsListed_initial)
    as (H1 & H2 & H3 & H4).
  fold st in H1, H2, H3, H4.
  split.
  - intros Hcrash. apply render_TypeError_inv in Hcrash
      as (d & Hd & _ & Hn). apply H4 in Hd. subst d. tauto.
  - intros Hq. pose proof (playerCache_run evs initialState Hq) as Hd. fold st in Hd.
    destruct (findPlayer (players mockData) (selectedPlayer1 st)) as [p1|] eqn:Hp1;
      [|by apply findPlayer_None in Hp1].
    destruct (findPlayer (players mockData) (selectedPlayer2 st)) as [p2|] eqn:Hp2;
      [|by apply findPlayer_None in Hp2].
    rewrite (render_found st mockData p1 p2 Hd Hp1 Hp2).
    eexists _, _, _, _. split; [reflexivity|].
    cbn [sel_value sel_options activeButtons]. rewrite names_options.
    split; [exact H1|]. split; [exact H2|]. split.
    + rewrite activeButtons_filter.
      destruct (filter_key_NoDup key (analysisType st) analysisTypes analysisTypes_NoDup)
        as [[Hk _]|(t & _ & Ht & ->)]; [done|]. simpl. by rewrite Ht.
    + assert (Hk : analysisType st = "comparison" ∨ analysisType st = "strength" ∨
                   analysisType st = "trends" ∨ analysisType st = "insights").
      { revert H3. generalize (analysisType st). intros k Hk.
        repeat (apply elem_of_cons in Hk as [->|Hk]); [tauto..|].
        by apply elem_of_nil in Hk. }
      destruct Hk as [Hk|[Hk|[Hk|Hk]]]; rewrite Hk; simpl; split; try done;
        try tauto; intros [?|?]; done.
Qed.

Lemma X11_witness :
  render (run initialState [QuerySettled; SelectPlayer1 "Luka Dončić"; ClickType "trends"])
  ≠ TypeError.
Proof.
  assert (H : Forall userEvent
                [QuerySettled; SelectPlayer1 "Luka Dončić"; ClickType "trends"]).
  { apply Forall_cons. split; [exact I|].
    apply Forall_cons. split; [apply (bool_decide_unpack _); vm_compute; exact I|].
    apply Forall_cons. split; [apply (bool_decide_unpack _); vm_compute; exact I|].
    apply Forall_nil_2. }
  destruct (X11_analysis_never_crashes _ H) as [Hok _]. exact Hok.
Defined.

Lemma statOf_None p k : statOf p k = None ↔ (k ∉ (stats p).*1).
Proof.
  unfold statOf. split.
  - intros Hf Hin. apply list_elem_of_fmap in Hin as ([k' v] & -> & Hp).
    destruct (List.find _ (stats p)) as [e|] eqn:Hfind; [done|].
    apply list_elem_of_In in Hp. pose proof (find_none _ _ Hfind _ Hp) as Hx.
    simpl in Hx. by apply bool_decide_eq_false in Hx.
  - intros Hnot. destruct (List.find _ (stats p)) as [[k' v]|] eqn:Hf; [|done].
    apply find_some in Hf as [Hin Hp]. apply bool_decide_eq_true in Hp. simpl in Hp.
    exfalso. apply Hnot. subst k'. apply (list_elem_of_fmap_2 fst (stats p) (k, v)).
    by apply list_elem_of_In.
Qed.

Lemma find_key_NoDup (l : list (string * Qc)) k v :
  NoDup l.*1 → (k, v) ∈ l →
  List.find (λ e, bool_decide (e.1 = k)) l = Some (k, v).
Proof.
  induction l as [|[k' v'] l IH]; intros Hnd Hin; [by apply elem_of_nil in Hin|].
  rewrite fmap_cons in Hnd. apply NoDup_cons in Hnd as [Hnotin Hnd]. simpl in *.
  apply elem_of_cons in Hin as [[= <- <-]|Hin].
  - by rewrite bool_decide_eq_true_2.
  - rewrite bool_decide_eq_false_2; [by apply IH|].
    intros ->. apply Hnotin. by apply (list_elem_of_fmap_2 fst l (k, v)).
Qed.

Lemma statOf_entry p k v : NoDup (stats p).*1 → (k, v) ∈ stats p → statOf p k = Some v.
Proof. intros Hnd Hin. unfold statOf. by rewrite (find_key_NoDup _ k v Hnd Hin). Qed.

Lemma isPositive_lt v1 v2 :
  isPositive (Some (v1 - v2)%Qc) = true ↔ (v2 < v1)%Qc.
Proof.
  simpl. rewrite bool_decide_eq_true. unfold Qcminus.
  symmetry. apply Qclt_minus_iff.
Qed.

(** X12.  The comparison table is driven by player 1.  It has one row
    per entry of [player1.stats], in that order, with the key in upper
    case and player 1's value; the second value is what [player2.stats]
    holds under the same key.  The difference cell is marked [positive],
    with a leading plus sign, exactly when player 2 has the statistic and
    player 1's value is strictly greater; in every other case, a tie and a
    statistic player 2 lacks included, it is marked [negative] without a
    sign.  For a statistic player 2 lacks the difference is not a number.
    (The sign of a difference of two doubles is that of the exact
    difference, which the model computes.) *)
Theorem X12_comparison_rows_follow_player1 (p1 p2 : Player) :
  row_key <$> comparisonRows p1 p2 = (stats p1).*1 ∧
  cell_value1 <$> comparisonRows p1 p2 = (stats p1).*2 ∧
  ∀ r, r ∈ comparisonRows p1 p2 →
    cell_stat r = toUpperCase (row_key r) ∧
    cell_value2 r = statOf p2 (row_key r) ∧
    (cell_class r = "positive" ↔
       ∃ v2, statOf p2 (row_key r) = Some v2 ∧ (v2 < cell_value1 r)%Qc) ∧
    (cell_class r ≠ "positive" → cell_class r = "negative" ∧ cell_sign r = "") ∧
    (cell_class r = "positive" → cell_sign r = "+") ∧
    ((row_key r ∉ (stats p2).*1) → difference r = None ∧ cell_class r = "negative").
Proof.
  unfold comparisonRows. split; [|split].
  - rewrite <-list_fmap_compose. by apply list_fmap_ext.
  - rewrite <-list_fmap_compose. by apply list_fmap_ext.
  - intros r Hr. apply list_elem_of_fmap in Hr as ([k v] & -> & _).
    unfold comparisonRow. cbn [row_key cell_stat cell_value1 cell_value2 difference
                                cell_class cell_sign fst snd].
    split; [done|]. split; [done|].
    destruct (statOf p2 k) as [v2|] eqn:Hs.
    + cbn [fmap option_fmap option_map].
      destruct (isPositive (Some (v - v2)%Qc)) eqn:Hpos.
      * apply isPositive_lt in Hpos. split_and!; try done.
        -- split; [|done]. intros _. by exists v2.
        -- intros Hnot. apply statOf_None in Hnot. congruence.
      * split_and!; try done.
        -- split; [done|]. intros (v2' & [= <-] & Hlt).
           apply isPositive_lt in Hlt. congruence.
        -- intros Hnot. apply statOf_None in Hnot. congruence.
    + cbn [fmap option_fmap option_map isPositive].
      split_and!; try done. split; [done|]. by intros (? & ? & _).
Qed.

(** X13.  For players whose [stats] objects have distinct keys, as
    object literals do: comparing a player with themself gives a
    difference of zero in every row, and every row is marked [negative];
    and swapping the two players negates the difference of each shared
    statistic, so the same statistic is never marked [positive] in both
    directions. *)
Theorem X13_self_comparison_marks_all_negative (p1 p2 : Player) :
  NoDup (stats p1).*1 → NoDup (stats p2).*1 →
  Forall (λ r, difference r = Some 0%Qc ∧ cell_class r = "negative" ∧ cell_sign r = "")
         (comparisonRows p1 p1) ∧
  ∀ r r', r ∈ comparisonRows p1 p2 → r' ∈ comparisonRows p2 p1 →
          row_key r = row_key r' →
          difference r = (λ d, - d)%Qc <$> difference r' ∧
          ¬ (cell_class r = "positive" ∧ cell_class r' = "positive").
Proof.
  intros Hnd1 Hnd2. split.
  - apply Forall_forall. intros r Hr. unfold comparisonRows in Hr.
    apply list_elem_of_fmap in Hr as ([k v] & -> & Hin).
    unfold comparisonRow. cbn [difference cell_class cell_sign fst snd].
    rewrite (statOf_entry p1 k v Hnd1 Hin). cbn [fmap option_fmap option_map].
    assert (Hz : (v - v)%Qc = 0%Qc) by (unfold Qcminus; apply Qcplus_opp_r).
    rewrite Hz. by vm_compute.
  - intros r r' Hr Hr' Hk. unfold comparisonRows in Hr, Hr'.
    apply list_elem_of_fmap in Hr as ([k v] & -> & Hin).
    apply list_elem_of_fmap in Hr' as ([k' v'] & -> & Hin').
    simpl in Hk. subst k'. unfold comparisonRow.
    cbn [difference cell_class cell_sign fst snd].
    rewrite (statOf_entry p1 k v Hnd1 Hin), (statOf_entry p2 k v' Hnd2 Hin').
    cbn [fmap option_fmap option_map]. split.
    + f_equal. ring.
    + destruct (isPositive (Some (v - v')%Qc)) eqn:H1;
        destruct (isPositive (Some (v' - v)%Qc)) eqn:H2; try (by intros [? ?]).
      apply isPositive_lt in H1, H2. exfalso.
      apply (Qclt_not_eq v v); [|done]. by apply Qclt_trans with v'.
Qed.

Lemma X13_witness :
  Forall (λ r, difference r = Some 0%Qc ∧ cell_class r = "negative" ∧ cell_sign r = "")
         (comparisonRows jokic jokic).
Proof.
  assert (H1 : NoDup (stats jokic).*1) by (apply (bool_decide_unpack _); vm_compute; exact I).
  assert (H2 : NoDup (stats embiid).*1) by (apply (bool_decide_unpack _); vm_compute; exact I).
  destruct (X13_self_comparison_marks_all_negative jokic embiid H1 H2) as [H _]. exact H.
Defined.

Lemma plotted_value c s :
  dataKey s = "value" → plotted c s = value <$> chartData c.
Proof.
  intros Hk. unfold plotted.
  destruct (decide (dataKey s = "value")) as [_|Hn]; [|done].
  induction (chartData c) as [|pt l IH]; [done|]. cbn [omap list_omap fmap list_fmap].
  by f_equal.
Qed.

(** X14.  Both series of the radar chart draw player 1.  In the
    comparison view the chart is given [player1.radarData] as its data and
    both [Radar] series read the field [value] from it, so the series
    named after player 2 plots player 1's values: picking another second
    player changes the name of the second series and the table header,
    and nothing of what the chart draws. *)
Theorem X14_radar_draws_player1_for_both (st : State) (v : string)
    chart header1 header2 rows chart' header1' header2' rows' :
  panelOf (render st) = Some (ComparisonPanel chart header1 header2 rows) →
  panelOf (render (step st (SelectPlayer2 v)))
    = Some (ComparisonPanel chart' header1' header2' rows') →
  seriesName <$> series chart = [header1; header2] ∧
  seriesName <$> series chart' = [header1; v] ∧
  header1' = header1 ∧ header2' = v ∧
  chartData chart' = chartData chart ∧
  ∀ s s', s ∈ series chart → s' ∈ series chart' →
          plotted chart s = value <$> chartData chart ∧
          plotted chart' s' = value <$> chartData chart.
Proof.
  unfold render. cbn [step queryCache analysisType selectedPlayer1 selectedPlayer2].
  destruct (queryCache st !! "playerData") as [d|]; [|done].
  destruct (bool_decide (analysisType st = "comparison")).
  - destruct (findPlayer (players d) (selectedPlayer1 st)) as [p1|]; [|done].
    destruct (findPlayer (players d) (selectedPlayer2 st)) as [p2|]; [|done].
    destruct (findPlayer (players d) v) as [p2'|] eqn:Hv; [|done].
    cbn [panelOf]. intros [= <- <- <- <-] [= <- <- <- <-].
    apply findPlayer_Some in Hv as [_ Hv].
    split_and!; try done; [by rewrite <-Hv|].
    intros s s' Hs Hs'.
    split; [rewrite (plotted_value _ s); [done|]|rewrite (plotted_value _ s'); [done|]].
    + simpl in Hs. repeat (apply elem_of_cons in Hs as [->|Hs]); try done.
      by apply elem_of_nil in Hs.
    + simpl in Hs'. repeat (apply elem_of_cons in Hs' as [->|Hs']); try done.
      by apply elem_of_nil in Hs'.
  - destruct (bool_decide (analysisType st = "strength")); by cbn [panelOf].
Qed.

Lemma X14_witness :
  ∃ chart chart' rows rows',
    panelOf (render (run initialState [QuerySettled]))
      = Some (ComparisonPanel chart "Nikola Jokić" "Joel Embiid" rows) ∧
    panelOf (render (step (run initialState [QuerySettled]) (SelectPlayer2 "Luka Dončić")))
      = Some (ComparisonPanel chart' "Nikola Jokić" "Luka Dončić" rows') ∧
    chartData chart' = chartData chart.
Proof.
  eexists _, _, _, _. split; [reflexivity|]. split; [reflexivity|].
  destruct (X14_radar_draws_player1_for_both
              (run initialState [QuerySettled]) "Luka Dončić"
              _ _ _ _ _ _ _ _ eq_refl eq_refl) as (_ & _ & _ & _ & H & _).
  exact H.
Defined.

End PlayerAnalysisExtras.
